(** * peaks.js points layer: a shallow embedding of [src/points-layer.js]

    The layer keeps a registry [_pointMarkers] from point ids to marker
    objects, creates and destroys markers as points enter and leave the
    visible window, repositions them, and writes drag gestures back into
    the points.

    Conventions of the embedding.
    - JavaScript objects that are shared and mutated (points, markers) live
      in two heaps indexed by references; a reference always denotes an
      object, so the heaps are total functions.
    - The registry is a JavaScript object used as a dictionary and is a
      [gmap string MarkerRef]; point ids are assumed not to collide with the
      property names of [Object.prototype].
    - Numbers are kept abstract behind the interface [JsNumber]: every
      result holds for whatever [+], [-], [<] and truthiness the numbers
      have, IEEE doubles included.
    - [this._peaks] and [this._view] are read-only for the layer; they are
      parameters of every method.
    - [emit] is synchronous: the constructor subscribes [_onPointsDrag] to
      the three drag topics of the very bus the layer emits on, so emitting
      one of them runs [_onPointsDrag] before [emit] returns.  Listeners of
      other components are outside the model.
    - The model covers the layer from its construction to its [destroy].
      The methods that only forward to the view or to Konva ([addToStage],
      [formatTime], [getHeight], [setVisible], [draw], [fitToView]) touch
      nothing the model records and are left out. *)

From Stdlib Require Import ZArith.
From stdpp Require Import base decidable option list strings gmap functions.

Local Open Scope string_scope.
Local Open Scope list_scope.
Local Open Scope nat_scope.

(** ** Numbers *)

Class JsNumber (num : Type) := {
  (** integer literals *)
  num_of_Z : Z → num;
  num_add : num → num → num;
  num_sub : num → num → num;
  num_ltb : num → num → bool;
  (** [ToBoolean] on a number: false for [0] (and [NaN]). *)
  num_truthy : num → bool
}.

Definition num_zero `{JsNumber num} : num := num_of_Z 0.

#[export] Instance Z_JsNumber : JsNumber Z := {|
  num_of_Z := fun n => n;
  num_add := Z.add;
  num_sub := Z.sub;
  num_ltb := Z.ltb;
  num_truthy := fun n => negb (Z.eqb n 0)
|}.

(** [ToBoolean] on a string: false for the empty string. *)
Definition str_truthy (s : string) : bool :=
  match s with EmptyString => false | _ => true end.

(** [a || b] and [a ? a : b] on a value that is [undefined] ([None]) or has
    the expected type. *)
Definition js_or {A} (truthy : A → bool) (a : option A) (b : A) : A :=
  match a with
  | Some v => if truthy v then v else b
  | None => b
  end.

(** Modelled from the spec: [clamp] of [./utils], which constrains a value
    to the closed interval between its two bounds. *)
Definition clamp `{JsNumber num} (value lo hi : num) : num :=
  if num_ltb value lo then lo
  else if num_ltb hi value then hi
  else value.

Definition PointRef := nat.
Definition MarkerRef := nat.

(** ** Points *)

Module Point.
Record t (num : Type) := mk {
  id : string;
  time : num;
  editable : bool;
  color : option string
}.
Arguments mk {num}.
Arguments id {num}.
Arguments time {num}.
Arguments editable {num}.
Arguments color {num}.

(** Modelled from the spec: [_setTime] of [./point], the single write
    path of a point's time. *)
Definition _setTime {num} (t' : num) (p : t num) : t num :=
  mk (id p) t' (editable p) (color p).
End Point.

(** ** The view and the host options *)

Module View.
Record t (num : Type) := mk {
  getStartTime : num;
  getEndTime : num;
  timeToPixels : num → num;
  pixelOffsetToTime : num → num;
  getFrameOffset : num;
  getWidth : num;
  getName : string
}.
Arguments mk {num}.
Arguments getStartTime {num}.
Arguments getEndTime {num}.
Arguments timeToPixels {num}.
Arguments pixelOffsetToTime {num}.
Arguments getFrameOffset {num}.
Arguments getWidth {num}.
Arguments getName {num}.
End View.

(** The object literal handed to the host's [createPointMarker]. *)
Module CreatePointMarkerOptions.
Record t (num : Type) := mk {
  point : PointRef;
  draggable : bool;
  color : string;
  fontFamily : string;
  fontSize : num;
  fontStyle : string;
  view : string
}.
Arguments mk {num}.
Arguments point {num}.
Arguments draggable {num}.
Arguments color {num}.
Arguments fontFamily {num}.
Arguments fontSize {num}.
Arguments fontStyle {num}.
Arguments view {num}.
End CreatePointMarkerOptions.

(** The visual a host factory returns; the layer only ever asks, through
    the point marker wrapping it, how wide it draws. *)
Module Marker.
Record t (num : Type) := mk {
  width : num
}.
Arguments mk {num}.
Arguments width {num}.
End Marker.

Module Options.
Record t (num : Type) := mk {
  createPointMarker : CreatePointMarkerOptions.t num → Marker.t num;
  pointMarkerColor : string;
  fontFamily : option string;
  fontSize : option num;
  fontStyle : option string
}.
Arguments mk {num}.
Arguments createPointMarker {num}.
Arguments pointMarkerColor {num}.
Arguments fontFamily {num}.
Arguments fontSize {num}.
Arguments fontStyle {num}.
End Options.

(** [this._peaks]: the host options and the point store with its query. *)
Module Peaks.
Record t (num : Type) := mk {
  options : Options.t num;
  (** the points the store holds *)
  points : list PointRef;
  (** [points.find(startTime, endTime)] *)
  find : num → num → list PointRef
}.
Arguments mk {num}.
Arguments options {num}.
Arguments points {num}.
Arguments find {num}.
End Peaks.

(** ** Point markers *)

Record Pos (num : Type) := mkPos { pos_x : num; pos_y : num }.
Arguments mkPos {num}.
Arguments pos_x {num}.
Arguments pos_y {num}.

Module PointMarker.
Record t (num : Type) := mk {
  _point : PointRef;
  _draggable : bool;
  _marker : Marker.t num;
  x : num;
  y : num;
  timeLabel : option num;
  destroyed : bool
}.
Arguments mk {num}.
Arguments _point {num}.
Arguments _draggable {num}.
Arguments _marker {num}.
Arguments x {num}.
Arguments y {num}.
Arguments timeLabel {num}.
Arguments destroyed {num}.

Section Methods.
Context `{JsNumber num}.

(** Modelled from the spec: the constructor of [./point-marker]; a new
    marker sits at the origin, shows no time yet and is alive. *)
Definition new (point : PointRef) (draggable : bool) (marker : Marker.t num) : t num :=
  mk point draggable marker num_zero num_zero None false.

(** Modelled from the spec: the accessors of [./point-marker]. *)
Definition getPoint (m : t num) : PointRef := _point m.
Definition getX (m : t num) : num := x m.
Definition getWidth (m : t num) : num := Marker.width (_marker m).
Definition getAbsolutePosition (m : t num) : Pos num := mkPos (x m) (y m).

(** Modelled from the spec: [setX] moves the marker horizontally. *)
Definition setX (x' : num) (m : t num) : t num :=
  mk (_point m) (_draggable m) (_marker m) x' (y m) (timeLabel m) (destroyed m).

(** Modelled from the spec: [timeUpdated] refreshes the marker's own
    time label. *)
Definition timeUpdated (time : num) (m : t num) : t num :=
  mk (_point m) (_draggable m) (_marker m) (x m) (y m) (Some time) (destroyed m).

(** Modelled from the spec: [destroy] releases the marker's rendering
    resources; the state only records that it happened. *)
Definition destroy (m : t num) : t num :=
  mk (_point m) (_draggable m) (_marker m) (x m) (y m) (timeLabel m) true.
End Methods.
End PointMarker.

(** ** The layer *)

(** What [this._peaks.emit(topic, { point, evt })] was called with. *)
Record Emitted := mkEmitted {
  topic : string;
  emitted_point : PointRef;
  emitted_evt : nat
}.

(** A raw Konva event; only its [evt] payload is ever forwarded. *)
Record KonvaEvent := mkKonvaEvent { evt : nat }.

(** The payload of a bus notification about one point. *)
Record PointEvent := mkPointEvent { point : PointRef; point_evt : nat }.

Record State (num : Type) := mkState {
  (** heap of point objects (owned by the store, shared with the markers) *)
  points : PointRef → Point.t num;
  (** heap of [PointMarker] objects and the next free reference *)
  markers : MarkerRef → PointMarker.t num;
  next_marker : MarkerRef;
  _allowEditing : bool;
  _pointMarkers : gmap string MarkerRef;
  (** children of the Konva layer, in insertion order *)
  _layer : list MarkerRef;
  (** [undefined] or [null] is [None] *)
  _dragPointMarker : option MarkerRef;
  emitted : list Emitted
}.
Arguments mkState {num}.
Arguments points {num}.
Arguments markers {num}.
Arguments next_marker {num}.
Arguments _allowEditing {num}.
Arguments _pointMarkers {num}.
Arguments _layer {num}.
Arguments _dragPointMarker {num}.
Arguments emitted {num}.

(** Field updates of the layer state. *)
Definition set_points {num} (f : PointRef → Point.t num) (st : State num) : State num :=
  mkState f (markers st) (next_marker st) (_allowEditing st) (_pointMarkers st)
    (_layer st) (_dragPointMarker st) (emitted st).
Definition set_markers {num} (f : MarkerRef → PointMarker.t num) (st : State num) : State num :=
  mkState (points st) f (next_marker st) (_allowEditing st) (_pointMarkers st)
    (_layer st) (_dragPointMarker st) (emitted st).
Definition set_next_marker {num} (n : MarkerRef) (st : State num) : State num :=
  mkState (points st) (markers st) n (_allowEditing st) (_pointMarkers st)
    (_layer st) (_dragPointMarker st) (emitted st).
Definition set_allowEditing {num} (b : bool) (st : State num) : State num :=
  mkState (points st) (markers st) (next_marker st) b (_pointMarkers st)
    (_layer st) (_dragPointMarker st) (emitted st).
Definition set_pointMarkers {num} (m : gmap string MarkerRef) (st : State num) : State num :=
  mkState (points st) (markers st) (next_marker st) (_allowEditing st) m
    (_layer st) (_dragPointMarker st) (emitted st).
Definition set_layer {num} (l : list MarkerRef) (st : State num) : State num :=
  mkState (points st) (markers st) (next_marker st) (_allowEditing st) (_pointMarkers st)
    l (_dragPointMarker st) (emitted st).
Definition set_dragPointMarker {num} (d : option MarkerRef) (st : State num) : State num :=
  mkState (points st) (markers st) (next_marker st) (_allowEditing st) (_pointMarkers st)
    (_layer st) d (emitted st).
Definition set_emitted {num} (e : list Emitted) (st : State num) : State num :=
  mkState (points st) (markers st) (next_marker st) (_allowEditing st) (_pointMarkers st)
    (_layer st) (_dragPointMarker st) e.

Definition defaultFontFamily : string := "sans-serif".
Definition defaultFontSize `{JsNumber num} : num := num_of_Z 10.
Definition defaultFontShape : string := "normal".

(** The topics the constructor subscribes [_onPointsDrag] to. *)
Definition drag_topics : list string :=
  ["points.dragstart"; "points.dragmove"; "points.dragend"].

Section PointsLayer.
Context `{JsNumber num}.

(** [Point.prototype.isVisible] of [./point]: the layer only calls it. *)
Variable isVisible : Point.t num → num → num → bool.
Variable _peaks : Peaks.t num.
Variable _view : View.t num.

(** [new PointsLayer(peaks, view, allowEditing)] over a given heap of
    points; [blank] fills the marker references not yet allocated. *)
Definition PointsLayer (allowEditing : bool) (heap : PointRef → Point.t num)
    (blank : PointMarker.t num) : State num :=
  mkState heap (fun _ => blank) 0 allowEditing ∅ [] None [].

Definition enableEditing (enable : bool) (st : State num) : State num :=
  set_allowEditing enable st.

(** The object literal [_createPointMarker] hands to the host factory; its
    [layer: this] entry is the layer itself and is not represented. *)
Definition createPointMarker_args (point : PointRef) (st : State num)
    : CreatePointMarkerOptions.t num :=
  let p := points st point in
  let editable := _allowEditing st && Point.editable p in
  let o := Peaks.options _peaks in
  CreatePointMarkerOptions.mk
    point
    editable
    (js_or str_truthy (Point.color p) (Options.pointMarkerColor o))
    (js_or str_truthy (Options.fontFamily o) defaultFontFamily)
    (js_or num_truthy (Options.fontSize o) defaultFontSize)
    (js_or str_truthy (Options.fontStyle o) defaultFontShape)
    (View.getName _view).

(** The callbacks passed to [new PointMarker] are the layer's own handlers
    below; the engine invokes them with the marker's point. *)
Definition _createPointMarker (point : PointRef) (st : State num) : PointMarker.t num :=
  let editable := _allowEditing st && Point.editable (points st point) in
  let marker :=
    Options.createPointMarker (Peaks.options _peaks) (createPointMarker_args point st) in
  PointMarker.new point editable marker.

(** Modelled from the spec: [addToLayer] of [./point-marker] attaches the
    marker to the render surface. *)
Definition addToLayer (r : MarkerRef) (st : State num) : State num :=
  set_layer (_layer st ++ [r]) st.

(** Modelled from the spec: [destroy] of [./point-marker] on the marker
    object [r]: it releases its resources and leaves the render surface. *)
Definition destroy_marker (r : MarkerRef) (st : State num) : State num :=
  set_layer (filter (λ c, c ≠ r) (_layer st))
    (set_markers (alter PointMarker.destroy r (markers st)) st).

(** Konva's [removeChildren]: detaches every child and destroys none. *)
Definition removeChildren (st : State num) : State num :=
  set_layer [] st.

Definition _addPointMarker (point : PointRef) (st : State num) : MarkerRef * State num :=
  let pointMarker := _createPointMarker point st in
  let r := next_marker st in
  let st1 := set_next_marker (S r) (set_markers (<[r := pointMarker]> (markers st)) st) in
  let st2 := set_pointMarkers (<[Point.id (points st1 point) := r]> (_pointMarkers st1)) st1 in
  (r, addToLayer r st2).

Definition _findOrAddPointMarker (point : PointRef) (st : State num) : MarkerRef * State num :=
  match _pointMarkers st !! Point.id (points st point) with
  | Some r => (r, st)
  | None => _addPointMarker point st
  end.

Definition _updatePoint (point : PointRef) (st : State num) : State num :=
  let '(r, st1) := _findOrAddPointMarker point st in
  let pointMarkerOffset := View.timeToPixels _view (Point.time (points st1 point)) in
  let pointMarkerX := num_sub pointMarkerOffset (View.getFrameOffset _view) in
  set_markers (alter (PointMarker.setX pointMarkerX) r (markers st1)) st1.

Definition _removePoint (point : PointRef) (st : State num) : State num :=
  let k := Point.id (points st point) in
  match _pointMarkers st !! k with
  | Some r =>
      let st1 := destroy_marker r st in
      set_pointMarkers (delete k (_pointMarkers st1)) st1
  | None => st
  end.

(** The [for ... in] loop of [_removeInvisiblePoints] over the keys
    enumerated when it starts: a key deleted before its turn is skipped. *)
Fixpoint _removeInvisiblePoints_loop (keys : list string) (startTime endTime : num)
    (count : nat) (st : State num) : nat * State num :=
  match keys with
  | [] => (count, st)
  | pointId :: rest =>
      match _pointMarkers st !! pointId with
      | Some r =>
          let point := PointMarker.getPoint (markers st r) in
          if negb (isVisible (points st point) startTime endTime)
          then _removeInvisiblePoints_loop rest startTime endTime (S count)
                 (_removePoint point st)
          else _removeInvisiblePoints_loop rest startTime endTime count st
      | None => _removeInvisiblePoints_loop rest startTime endTime count st
      end
  end.

(** JavaScript enumerates integer-like keys first and the others in
    insertion order; the map's own enumeration stands in for that order.
    Under the registry invariant the outcome is the same for every
    enumeration of the keys (see [removeInvisiblePoints_loop_spec]). *)
Definition _removeInvisiblePoints (startTime endTime : num) (st : State num)
    : nat * State num :=
  _removeInvisiblePoints_loop (map_to_list (_pointMarkers st)).*1 startTime endTime 0 st.

Definition updatePoints (startTime endTime : num) (st : State num) : State num :=
  let points := Peaks.find _peaks startTime endTime in
  let st1 := foldl (λ s point, _updatePoint point s) st points in
  (_removeInvisiblePoints startTime endTime st1).2.

Definition _onPointsUpdate (point : PointRef) (st : State num) : State num :=
  let frameStartTime := View.getStartTime _view in
  let frameEndTime := View.getEndTime _view in
  let st1 := _removePoint point st in
  let st2 :=
    if isVisible (points st1 point) frameStartTime frameEndTime
    then (_addPointMarker point st1).2
    else st1 in
  updatePoints frameStartTime frameEndTime st2.

Definition _onPointsAdd (pts : list PointRef) (st : State num) : State num :=
  let frameStartTime := View.getStartTime _view in
  let frameEndTime := View.getEndTime _view in
  let st1 :=
    foldl (λ s point,
             if isVisible (points s point) frameStartTime frameEndTime
             then (_addPointMarker point s).2
             else s) st pts in
  updatePoints frameStartTime frameEndTime st1.

Definition _onPointsRemove (pts : list PointRef) (st : State num) : State num :=
  foldl (λ s point, _removePoint point s) st pts.

Definition _onPointsRemoveAll (st : State num) : State num :=
  set_pointMarkers ∅ (removeChildren st).

Definition _onPointsDrag (event : PointEvent) (st : State num) : State num :=
  _updatePoint (point event) st.

(** [this._peaks.emit(topic, { point, evt })]: the call is recorded and the
    layer's own listener of the topic, if any, runs at once. *)
Definition emit (tp : string) (pt : PointRef) (e : nat) (st : State num) : State num :=
  let st1 := set_emitted (emitted st ++ [mkEmitted tp pt e]) st in
  if bool_decide (tp ∈ drag_topics)
  then _onPointsDrag (mkPointEvent pt e) st1
  else st1.

(** [None] is the [TypeError] of calling a method on [undefined]. *)
Definition _onPointHandleDragMove (event : KonvaEvent) (point : PointRef)
    (st : State num) : option (State num) :=
  match _pointMarkers st !! Point.id (points st point) with
  | None => None
  | Some r =>
      let pointMarker := markers st r in
      let markerX := PointMarker.getX pointMarker in
      let offset := num_add markerX (PointMarker.getWidth pointMarker) in
      let st1 :=
        set_points
          (alter (Point._setTime (View.pixelOffsetToTime _view offset)) point (points st))
          st in
      let st2 :=
        set_markers
          (alter (PointMarker.timeUpdated (Point.time (points st1 point))) r (markers st1))
          st1 in
      Some (emit "points.dragmove" point (evt event) st2)
  end.

Definition _onPointHandleMouseEnter (event : KonvaEvent) (point : PointRef)
    (st : State num) : State num :=
  emit "points.mouseenter" point (evt event) st.

Definition _onPointHandleMouseLeave (event : KonvaEvent) (point : PointRef)
    (st : State num) : State num :=
  emit "points.mouseleave" point (evt event) st.

Definition _onPointHandleClick (event : KonvaEvent) (point : PointRef)
    (st : State num) : State num :=
  emit "points.click" point (evt event) st.

Definition _onPointHandleDblClick (event : KonvaEvent) (point : PointRef)
    (st : State num) : State num :=
  emit "points.dblclick" point (evt event) st.

Definition _onPointHandleDragStart (event : KonvaEvent) (point : PointRef)
    (st : State num) : State num :=
  let st1 := set_dragPointMarker (_pointMarkers st !! Point.id (points st point)) st in
  emit "points.dragstart" point (evt event) st1.

Definition _onPointHandleDragEnd (event : KonvaEvent) (point : PointRef)
    (st : State num) : State num :=
  let st1 := set_dragPointMarker None st in
  emit "points.dragend" point (evt event) st1.

(** [None] is the [TypeError] of reading the position of a missing drag
    marker. *)
Definition _pointHandleDragBoundFunc (pos : Pos num) (st : State num) : option (Pos num) :=
  match _dragPointMarker st with
  | None => None
  | Some r =>
      Some (mkPos (clamp (pos_x pos) num_zero (View.getWidth _view))
                  (pos_y (PointMarker.getAbsolutePosition (markers st r))))
  end.

Definition _onPointHandleContextMenu (event : KonvaEvent) (point : PointRef)
    (st : State num) : State num :=
  emit "points.contextmenu" point (evt event) st.

End PointsLayer.

Arguments PointsLayer {num}.

(** ** Notifications and gestures *)

(** Everything that can reach the layer: the bus notifications it listens
    to, the pointer callbacks of its own markers, and its public methods. *)
Inductive Event (num : Type) :=
  | PointsUpdate (pt : PointRef)
  | PointsAdd (pts : list PointRef)
  | PointsRemove (pts : list PointRef)
  | PointsRemoveAll
  | PointsDrag (e : PointEvent)
  | UpdatePoints (startTime endTime : num)
  | EnableEditing (enable : bool)
  | HandleClick (e : KonvaEvent) (pt : PointRef)
  | HandleDblClick (e : KonvaEvent) (pt : PointRef)
  | HandleMouseEnter (e : KonvaEvent) (pt : PointRef)
  | HandleMouseLeave (e : KonvaEvent) (pt : PointRef)
  | HandleContextMenu (e : KonvaEvent) (pt : PointRef)
  | HandleDragStart (e : KonvaEvent) (pt : PointRef)
  | HandleDragMove (e : KonvaEvent) (pt : PointRef)
  | HandleDragEnd (e : KonvaEvent) (pt : PointRef).
Arguments PointsUpdate {num}.
Arguments PointsAdd {num}.
Arguments PointsRemove {num}.
Arguments PointsRemoveAll {num}.
Arguments PointsDrag {num}.
Arguments UpdatePoints {num}.
Arguments EnableEditing {num}.
Arguments HandleClick {num}.
Arguments HandleDblClick {num}.
Arguments HandleMouseEnter {num}.
Arguments HandleMouseLeave {num}.
Arguments HandleContextMenu {num}.
Arguments HandleDragStart {num}.
Arguments HandleDragMove {num}.
Arguments HandleDragEnd {num}.

Definition is_drag_start {num} (ev : Event num) : bool :=
  match ev with HandleDragStart _ _ => true | _ => false end.
Definition is_drag_end {num} (ev : Event num) : bool :=
  match ev with HandleDragEnd _ _ => true | _ => false end.

Section Dispatch.
Context `{JsNumber num}.
Variable isVisible : Point.t num → num → num → bool.

(** One notification, handled to completion; [None] when the handler
    throws. *)
Definition step (peaks : Peaks.t num) (view : View.t num) (ev : Event num)
    (st : State num) : option (State num) :=
  match ev with
  | PointsUpdate pt => Some (_onPointsUpdate isVisible peaks view pt st)
  | PointsAdd pts => Some (_onPointsAdd isVisible peaks view pts st)
  | PointsRemove pts => Some (_onPointsRemove pts st)
  | PointsRemoveAll => Some (_onPointsRemoveAll st)
  | PointsDrag e => Some (_onPointsDrag peaks view e st)
  | UpdatePoints s e => Some (updatePoints isVisible peaks view s e st)
  | EnableEditing b => Some (enableEditing b st)
  | HandleClick e pt => Some (_onPointHandleClick peaks view e pt st)
  | HandleDblClick e pt => Some (_onPointHandleDblClick peaks view e pt st)
  | HandleMouseEnter e pt => Some (_onPointHandleMouseEnter peaks view e pt st)
  | HandleMouseLeave e pt => Some (_onPointHandleMouseLeave peaks view e pt st)
  | HandleContextMenu e pt => Some (_onPointHandleContextMenu peaks view e pt st)
  | HandleDragStart e pt => Some (_onPointHandleDragStart peaks view e pt st)
  | HandleDragMove e pt => _onPointHandleDragMove peaks view e pt st
  | HandleDragEnd e pt => Some (_onPointHandleDragEnd peaks view e pt st)
  end.

(** Notifications are handled in arrival order; the store and the view may
    have changed between two of them, so each comes with its own. *)
Fixpoint run (evs : list (Peaks.t num * View.t num * Event num)) (st : State num)
    : option (State num) :=
  match evs with
  | [] => Some st
  | (peaks, view, ev) :: rest =>
      match step peaks view ev st with
      | Some st' => run rest st'
      | None => None
      end
  end.

(** The rendering engine's part of a drag on the marker object [r]: it
    asks the marker's [dragBoundFunc] where the proposed position may go,
    puts the marker there and calls the marker's drag-move callback with
    the marker's point. *)
Definition drag_to (peaks : Peaks.t num) (view : View.t num) (r : MarkerRef)
    (pos : Pos num) (e : KonvaEvent) (st : State num) : option (State num) :=
  match _pointHandleDragBoundFunc view pos st with
  | None => None
  | Some bounded =>
      let place m :=
        PointMarker.mk (PointMarker._point m) (PointMarker._draggable m)
          (PointMarker._marker m) (pos_x bounded) (pos_y bounded)
          (PointMarker.timeLabel m) (PointMarker.destroyed m) in
      let st1 := set_markers (alter place r (markers st)) st in
      _onPointHandleDragMove peaks view e (PointMarker.getPoint (markers st1 r)) st1
  end.

(** A whole gesture on the marker [r]: drag start, one move to [pos], drag
    end. *)
Definition drag_gesture (peaks : Peaks.t num) (view : View.t num) (r : MarkerRef)
    (pos : Pos num) (e : KonvaEvent) (st : State num) : option (State num) :=
  let pt := PointMarker.getPoint (markers st r) in
  let st1 := _onPointHandleDragStart peaks view e pt st in
  match drag_to peaks view r pos e st1 with
  | Some st2 => Some (_onPointHandleDragEnd peaks view e pt st2)
  | None => None
  end.

End Dispatch.

(** ** A concrete layer

    The scenario of the specification: points at 1 s, 5 s and 9 s, ten
    pixels per second, and the visibility rule [start <= time < end]. *)

Module Demo.

Definition isVisible (p : Point.t Z) (s e : Z) : bool :=
Z.leb s (Point.time p) && Z.ltb (Point.time p) e.

Definition heap (r : PointRef) : Point.t Z :=
match r with
| 0 => Point.mk "a" 1%Z true None
| 1 => Point.mk "b" 5%Z false (Some "red")
| 2 => Point.mk "c" 9%Z true None
| _ => Point.mk "" 0%Z false None
end.

Definition options : Options.t Z :=
Options.mk (λ _, Marker.mk 0%Z) "grey" None None None.

Definition peaks : Peaks.t Z :=
Peaks.mk options [0; 1; 2]
  (λ s e, filter (λ r, isVisible (heap r) s e = true) [0; 1; 2]).

(** The same host with the font size set to 0. *)
Definition peaks_zero_font : Peaks.t Z :=
Peaks.mk (Options.mk (λ _, Marker.mk 0%Z) "grey" None (Some 0%Z) None)
  (Peaks.points peaks) (Peaks.find peaks).

Definition view (s e : Z) : View.t Z :=
View.mk s e (λ t, (t * 10)%Z) (λ x, (x / 10)%Z) (s * 10)%Z ((e - s) * 10)%Z "zoomview".

Definition blank : PointMarker.t Z :=
PointMarker.new 3 false (Marker.mk 0%Z).

(** A fresh layer, and the layer after showing the window from 0 s to 6 s. *)
Definition st0 : State Z := PointsLayer true heap blank.
Definition st1 : State Z := updatePoints isVisible peaks (view 0 6) 0%Z 6%Z st0.

End Demo.

(** ** Invariants of the registry *)

Section Invariants.
Context {num : Type} {HN : JsNumber num}.
Variable isVisible : Point.t num → num → num → bool.

(** The id a point reference currently carries, and the point a marker
    reference was built for. *)
Definition pid (st : State num) (p : PointRef) : string := Point.id (points st p).
Definition mpoint (st : State num) (r : MarkerRef) : PointRef :=
  PointMarker.getPoint (markers st r).

(** Where [_updatePoint] puts the marker of [p]. *)
Definition marker_position (view : View.t num) (st : State num) (p : PointRef) : num :=
  num_sub (View.timeToPixels view (Point.time (points st p))) (View.getFrameOffset view).

(** Every registered marker is an allocated object, filed under the id of
    the point it was built for. *)
Definition registry_wf (st : State num) : Prop :=
  map_Forall (λ k r, r < next_marker st ∧ pid st (mpoint st r) = k) (_pointMarkers st).

(** Every registered marker belongs to a point of the store. *)
Definition registry_in_store (peaks : Peaks.t num) (st : State num) : Prop :=
  map_Forall (λ _ r, mpoint st r ∈ Peaks.points peaks) (_pointMarkers st).

(** Ids are unique among the points of the store. *)
Definition unique_ids (peaks : Peaks.t num) (st : State num) : Prop :=
  Forall (λ p, Forall (λ q, pid st p = pid st q → p = q) (Peaks.points peaks))
    (Peaks.points peaks).

(** The store's query returns exactly its visible points. *)
Definition find_visible (peaks : Peaks.t num) (st : State num) (s e : num) : Prop :=
  Forall (λ p, p ∈ Peaks.points peaks ∧ isVisible (points st p) s e = true)
    (Peaks.find peaks s e)
  ∧ Forall (λ p, isVisible (points st p) s e = true → p ∈ Peaks.find peaks s e)
      (Peaks.points peaks).

(** The test [_removeInvisiblePoints] applies to a registered marker. *)
Definition marker_visible (st : State num) (s e : num) (r : MarkerRef) : bool :=
  isVisible (points st (mpoint st r)) s e.

(** The first phase of [updatePoints]: [points.forEach(_updatePoint)]. *)
Definition update_all (peaks : Peaks.t num) (view : View.t num) (ps : list PointRef)
    (st : State num) : State num :=
  foldl (λ s point, _updatePoint peaks view point s) st ps.

End Invariants.


(** ** Further methods and invariants *)

(** [fitToView]: the [for ... in] loop over the registry; nothing is
    deleted on the way, so every key is visited.  The result lists the
    markers whose [fitToView] is called, in enumeration order. *)
Definition fitToView {num} (st : State num) : list MarkerRef :=
  (map_to_list (_pointMarkers st)).*2.

(** Every registered marker is alive and a child of the layer. *)
Definition registry_live {num} (st : State num) : Prop :=
  map_Forall (λ _ r, PointMarker.destroyed (markers st r) = false ∧ r ∈ _layer st)
    (_pointMarkers st).

(** Every child of the layer is an allocated marker object. *)
Definition layer_allocated {num} (st : State num) : Prop :=
  Forall (λ r, r < next_marker st) (_layer st).

(** What never changes about the marker objects allocated in [st] on the
    way to [st']: their point, their draggability and their visual; and a
    destroyed marker stays destroyed. *)
Definition markers_kept {num} (st st' : State num) : Prop :=
  next_marker st ≤ next_marker st'
  ∧ ∀ r, r < next_marker st →
      PointMarker._point (markers st' r) = PointMarker._point (markers st r)
      ∧ PointMarker._draggable (markers st' r) = PointMarker._draggable (markers st r)
      ∧ PointMarker._marker (markers st' r) = PointMarker._marker (markers st r)
      ∧ (PointMarker.destroyed (markers st r) = true →
         PointMarker.destroyed (markers st' r) = true).

(** What the layer never changes about a point. *)
Definition points_kept {num} (st st' : State num) : Prop :=
  ∀ q, Point.id (points st' q) = Point.id (points st q)
       ∧ Point.editable (points st' q) = Point.editable (points st q)
       ∧ Point.color (points st' q) = Point.color (points st q).

Definition is_drag_move {num} (ev : Event num) : bool :=
  match ev with HandleDragMove _ _ => true | _ => false end.

(** The pointer callbacks, which forward to the bus. *)
Definition is_pointer_callback {num} (ev : Event num) : bool :=
  match ev with
  | HandleClick _ _ | HandleDblClick _ _ | HandleMouseEnter _ _
  | HandleMouseLeave _ _ | HandleContextMenu _ _
  | HandleDragStart _ _ | HandleDragMove _ _ | HandleDragEnd _ _ => true
  | _ => false
  end.

(** The invariant of the layer: the registry is well formed, its markers
    are alive children of the layer, and the layer's children are
    allocated. *)
Definition layer_inv {num} (st : State num) : Prop :=
  registry_wf st ∧ registry_live st ∧ layer_allocated st.

(** What a pointer callback hands to [emit]. *)
Definition emission {num} (ev : Event num) : option Emitted :=
  match ev with
  | HandleClick e pt => Some (mkEmitted "points.click" pt (evt e))
  | HandleDblClick e pt => Some (mkEmitted "points.dblclick" pt (evt e))
  | HandleMouseEnter e pt => Some (mkEmitted "points.mouseenter" pt (evt e))
  | HandleMouseLeave e pt => Some (mkEmitted "points.mouseleave" pt (evt e))
  | HandleContextMenu e pt => Some (mkEmitted "points.contextmenu" pt (evt e))
  | HandleDragStart e pt => Some (mkEmitted "points.dragstart" pt (evt e))
  | HandleDragMove e pt => Some (mkEmitted "points.dragmove" pt (evt e))
  | HandleDragEnd e pt => Some (mkEmitted "points.dragend" pt (evt e))
  | _ => None
  end.

(** The callbacks that do nothing but forward. *)
Definition is_forwarder {num} (ev : Event num) : bool :=
  match ev with
  | HandleClick _ _ | HandleDblClick _ _ | HandleMouseEnter _ _
  | HandleMouseLeave _ _ | HandleContextMenu _ _ => true
  | _ => false
  end.

(** The marker object [r] is an orphan: no key of the registry leads to
    it, though it is allocated, alive and a child of the layer. *)
Definition orphan {num} (r : MarkerRef) (st : State num) : Prop :=
  r < next_marker st
  ∧ (∀ k, _pointMarkers st !! k ≠ Some r)
  ∧ PointMarker.destroyed (markers st r) = false
  ∧ r ∈ _layer st.

Definition is_remove_all {num} (ev : Event num) : bool :=
  match ev with PointsRemoveAll => true | _ => false end.


(** * Proofs *)

(** Splits a five-part frame statement into its parts. *)
Ltac split_frame := refine (conj _ (conj _ (conj _ (conj _ _)))).

(** Settles a decidable statement about the concrete layer by evaluation. *)
Ltac decide_by_computation := apply (bool_decide_unpack _); vm_compute; reflexivity.


Section Frames.
Context {num : Type} {HN : JsNumber num}.
Variable isVisible : Point.t num → num → num → bool.
Variable peaks : Peaks.t num.
Variable view : View.t num.

Local Abbreviation reg := _pointMarkers.
Local Abbreviation upd := (_updatePoint peaks view).
Local Abbreviation upd_all := (update_all peaks view).

Lemma registry_wf_lookup (st : State num) k r :
  registry_wf st → reg st !! k = Some r →
  r < next_marker st ∧ pid st (mpoint st r) = k.
Proof. intros Hwf Hk. exact (Hwf k r Hk). Qed.

Lemma registry_wf_inj (st : State num) k1 k2 r :
  registry_wf st → reg st !! k1 = Some r → reg st !! k2 = Some r → k1 = k2.
Proof.
  intros Hwf H1 H2.
  destruct (Hwf _ _ H1) as [_ <-]. by destruct (Hwf _ _ H2) as [_ <-].
Qed.

Lemma unique_ids_eq (st : State num) p q :
  unique_ids peaks st → p ∈ Peaks.points peaks → q ∈ Peaks.points peaks →
  pid st p = pid st q → p = q.
Proof.
  intros Hu Hp Hq. unfold unique_ids in Hu.
  rewrite list.Forall_forall in Hu. specialize (Hu p Hp).
  rewrite list.Forall_forall in Hu. exact (Hu q Hq).
Qed.

(** *** [_updatePoint] *)

Lemma updatePoint_points p st : points (upd p st) = points st.
Proof.
  unfold _updatePoint, _findOrAddPointMarker.
  destruct (reg st !! _) ; reflexivity.
Qed.

Lemma updatePoint_hit p st r :
  reg st !! pid st p = Some r →
  upd p st = set_markers
               (alter (PointMarker.setX (marker_position view st p)) r (markers st)) st.
Proof.
  intros Hr. unfold _updatePoint, _findOrAddPointMarker. fold (pid st p).
  by rewrite Hr.
Qed.

Lemma updatePoint_miss p st :
  reg st !! pid st p = None →
  let r := next_marker st in
  reg (upd p st) = <[pid st p := r]> (reg st)
  ∧ next_marker (upd p st) = S r
  ∧ _layer (upd p st) = _layer st ++ [r]
  ∧ markers (upd p st) r
    = PointMarker.setX (marker_position view st p) (_createPointMarker peaks view p st)
  ∧ (∀ r', r' ≠ r → markers (upd p st) r' = markers st r').
Proof.
  intros Hr. unfold _updatePoint, _findOrAddPointMarker. fold (pid st p).
  rewrite Hr. cbn. repeat split.
  - by rewrite fn_lookup_alter, fn_lookup_insert.
  - intros r' Hne. rewrite fn_lookup_alter_ne by done. by rewrite fn_lookup_insert_ne.
Qed.


Lemma mpoint_setX (st : State num) r x r' :
  mpoint (set_markers (alter (PointMarker.setX x) r (markers st)) st) r' = mpoint st r'.
Proof.
  unfold mpoint. cbn. destruct (decide (r = r')) as [->|Hne].
  - by rewrite fn_lookup_alter.
  - by rewrite fn_lookup_alter_ne.
Qed.

Lemma updatePoint_reg p st k r :
  reg (upd p st) !! k = Some r ↔
  reg st !! k = Some r
  ∨ (reg st !! pid st p = None ∧ k = pid st p ∧ r = next_marker st).
Proof.
  destruct (reg st !! pid st p) as [r0|] eqn:Hp.
  - rewrite (updatePoint_hit _ _ _ Hp). cbn. split; [by left|].
    intros [Hk | (Hnone & _)]; [done | discriminate].
  - destruct (updatePoint_miss _ _ Hp) as (-> & _). rewrite lookup_insert.
    case_decide as Hk.
    + subst k. split.
      * intros [= <-]. by right.
      * intros [Hk | (_ & _ & ->)]; [congruence | done].
    + split; [by left|]. intros [Hk' | (_ & -> & _)]; done.
Qed.

Lemma updatePoint_reg_mono p st k r :
  reg st !! k = Some r → reg (upd p st) !! k = Some r.
Proof. intros Hk. apply updatePoint_reg. by left. Qed.

Lemma updatePoint_next p st : next_marker st ≤ next_marker (upd p st).
Proof.
  destruct (reg st !! pid st p) as [r0|] eqn:Hp.
  - by rewrite (updatePoint_hit _ _ _ Hp).
  - destruct (updatePoint_miss _ _ Hp) as (_ & -> & _). lia.
Qed.

Lemma updatePoint_mpoint_old p st r :
  r < next_marker st → mpoint (upd p st) r = mpoint st r.
Proof.
  intros Hr. destruct (reg st !! pid st p) as [r0|] eqn:Hp.
  - rewrite (updatePoint_hit _ _ _ Hp). apply mpoint_setX.
  - destruct (updatePoint_miss _ _ Hp) as (_ & _ & _ & _ & Hm).
    unfold mpoint. rewrite Hm; [done | lia].
Qed.

Lemma updatePoint_mpoint_new p st :
  reg st !! pid st p = None → mpoint (upd p st) (next_marker st) = p.
Proof.
  intros Hp. destruct (updatePoint_miss _ _ Hp) as (_ & _ & _ & Hm & _).
  unfold mpoint. by rewrite Hm.
Qed.

Lemma updatePoint_pid p st q : pid (upd p st) q = pid st q.
Proof. unfold pid. by rewrite updatePoint_points. Qed.

Lemma updatePoint_wf p st : registry_wf st → registry_wf (upd p st).
Proof.
  intros Hwf k r Hk. rewrite updatePoint_pid.
  apply updatePoint_reg in Hk as [Hk | (Hp & -> & ->)].
  - destruct (Hwf _ _ Hk) as [Hlt Hid]. split.
    + pose proof (updatePoint_next p st). lia.
    + by rewrite updatePoint_mpoint_old.
  - split.
    + destruct (updatePoint_miss _ _ Hp) as (_ & -> & _). lia.
    + by rewrite updatePoint_mpoint_new.
Qed.

Lemma updatePoint_in_store p st :
  registry_wf st → registry_in_store peaks st → p ∈ Peaks.points peaks →
  registry_in_store peaks (upd p st).
Proof.
  intros Hwf Hin Hp k r Hk. cbn.
  apply updatePoint_reg in Hk as [Hk | (Hnone & -> & ->)].
  - destruct (Hwf _ _ Hk) as [Hlt _]. rewrite updatePoint_mpoint_old by done.
    exact (Hin _ _ Hk).
  - by rewrite updatePoint_mpoint_new.
Qed.

(** The marker of the updated point sits where the view projects it. *)
Lemma updatePoint_placed p st :
  ∃ r, reg (upd p st) !! pid st p = Some r
       ∧ PointMarker.getX (markers (upd p st) r) = marker_position view st p.
Proof.
  destruct (reg st !! pid st p) as [r0|] eqn:Hp.
  - exists r0. rewrite (updatePoint_hit _ _ _ Hp). cbn. split; [done|].
    by rewrite fn_lookup_alter.
  - exists (next_marker st).
    destruct (updatePoint_miss _ _ Hp) as (-> & _ & _ & -> & _).
    by rewrite lookup_insert_eq.
Qed.

(** Updating [p] leaves the markers filed under other ids where they are. *)
Lemma updatePoint_other_x p st k r :
  registry_wf st → reg st !! k = Some r → k ≠ pid st p →
  markers (upd p st) r = markers st r.
Proof.
  intros Hwf Hk Hne. destruct (reg st !! pid st p) as [r0|] eqn:Hp.
  - rewrite (updatePoint_hit _ _ _ Hp). cbn.
    rewrite fn_lookup_alter_ne; [done|].
    intros ->. apply Hne. symmetry. by eapply registry_wf_inj.
  - destruct (updatePoint_miss _ _ Hp) as (_ & _ & _ & _ & Hm).
    apply Hm. destruct (Hwf _ _ Hk). lia.
Qed.

Lemma marker_position_updatePoint p st q :
  marker_position view (upd p st) q = marker_position view st q.
Proof. unfold marker_position. by rewrite updatePoint_points. Qed.


(** *** The first phase of [updatePoints] *)

Lemma update_all_snoc ps q st : upd_all (ps ++ [q]) st = upd q (upd_all ps st).
Proof. unfold update_all. by rewrite foldl_app. Qed.

Lemma update_all_points ps st : points (upd_all ps st) = points st.
Proof.
  induction ps as [|q ps IH] using rev_ind; [done|].
  by rewrite update_all_snoc, updatePoint_points.
Qed.

Lemma update_all_pid ps st q : pid (upd_all ps st) q = pid st q.
Proof. unfold pid. by rewrite update_all_points. Qed.

Lemma update_all_wf ps st : registry_wf st → registry_wf (upd_all ps st).
Proof.
  intros Hwf. induction ps as [|q ps IH] using rev_ind; [done|].
  rewrite update_all_snoc. by apply updatePoint_wf.
Qed.

Lemma update_all_next ps st : next_marker st ≤ next_marker (upd_all ps st).
Proof.
  induction ps as [|q ps IH] using rev_ind; [done|].
  rewrite update_all_snoc. pose proof (updatePoint_next q (upd_all ps st)). lia.
Qed.

Lemma update_all_mpoint_old ps st r :
  r < next_marker st → mpoint (upd_all ps st) r = mpoint st r.
Proof.
  intros Hr. induction ps as [|q ps IH] using rev_ind; [done|].
  rewrite update_all_snoc, updatePoint_mpoint_old; [done|].
  pose proof (update_all_next ps st). lia.
Qed.

Lemma update_all_reg_mono ps st k r :
  reg st !! k = Some r → reg (upd_all ps st) !! k = Some r.
Proof.
  intros Hk. induction ps as [|q ps IH] using rev_ind; [done|].
  rewrite update_all_snoc. by apply updatePoint_reg_mono.
Qed.

Lemma update_all_in_store ps st :
  registry_wf st → registry_in_store peaks st → Forall (λ p, p ∈ Peaks.points peaks) ps →
  registry_in_store peaks (upd_all ps st).
Proof.
  intros Hwf Hin Hps. induction ps as [|q ps IH] using rev_ind; [done|].
  apply Forall_app in Hps as [Hps Hq]. apply Forall_inv in Hq.
  rewrite update_all_snoc. apply updatePoint_in_store; [by apply update_all_wf|by apply IH|done].
Qed.

Lemma unique_ids_points (st st' : State num) :
  points st' = points st → unique_ids peaks st → unique_ids peaks st'.
Proof. unfold unique_ids, pid. by intros ->. Qed.

(** After the first phase every updated point has a marker, placed where
    the view projects the point. *)
Lemma update_all_placed ps st p :
  registry_wf st → unique_ids peaks st →
  Forall (λ p, p ∈ Peaks.points peaks) ps → p ∈ ps →
  ∃ r, reg (upd_all ps st) !! pid st p = Some r
       ∧ PointMarker.getX (markers (upd_all ps st) r) = marker_position view st p.
Proof.
  intros Hwf Hu Hps. induction ps as [|q ps IH] using rev_ind; [by intros ?%elem_of_nil|].
  apply Forall_app in Hps as [Hps Hq]. apply Forall_inv in Hq.
  intros Hp. rewrite update_all_snoc.
  destruct (decide (p = q)) as [->|Hne].
  - destruct (updatePoint_placed q (upd_all ps st)) as (r & Hr & Hx).
    exists r. rewrite update_all_pid in Hr. split; [done|].
    rewrite Hx. unfold marker_position. by rewrite update_all_points.
  - assert (p ∈ ps) as Hp'.
    { apply elem_of_app in Hp as [Hp|Hp]; [done|]. by apply list_elem_of_singleton in Hp. }
    destruct (IH Hps Hp') as (r & Hr & Hx). exists r.
    assert (pid st p ≠ pid st q) as Hid.
    { intros Heq. apply Hne. eapply unique_ids_eq; [done| |done|done].
      rewrite list.Forall_forall in Hps. by apply Hps. }
    split; [by apply updatePoint_reg_mono|].
    rewrite (updatePoint_other_x q (upd_all ps st) (pid st p) r); [done| |done|].
    + by apply update_all_wf.
    + by rewrite update_all_pid.
Qed.

(** When every point already has its marker in place the first phase
    changes nothing but, extensionally, rewrites the same positions. *)
Lemma update_all_noop ps st :
  Forall (λ p, ∃ r, reg st !! pid st p = Some r
                    ∧ PointMarker.getX (markers st r) = marker_position view st p) ps →
  ∃ f, upd_all ps st = set_markers f st ∧ ∀ r, f r = markers st r.
Proof.
  induction ps as [|q ps IH] using rev_ind.
  - intros _. exists (markers st). split; [by destruct st|done].
  - intros Hps. apply Forall_app in Hps as [Hps Hq]. apply Forall_inv in Hq.
    destruct (IH Hps) as (f & Hf & Hext). destruct Hq as (r & Hr & Hx).
    rewrite update_all_snoc, Hf.
    assert (reg (set_markers f st) !! pid (set_markers f st) q = Some r) as Hr' by done.
    rewrite (updatePoint_hit _ _ _ Hr'). cbn.
    eexists. split; [reflexivity|]. intros r'.
    destruct (decide (r = r')) as [<-|Hne].
    + rewrite fn_lookup_alter, Hext. unfold marker_position. cbn.
      fold (marker_position view st q). rewrite <- Hx.
      by destruct (markers st r).
    + by rewrite fn_lookup_alter_ne.
Qed.

(** *** [_removePoint] *)

Lemma removePoint_miss p (st : State num) : reg st !! pid st p = None → _removePoint p st = st.
Proof. intros Hp. unfold _removePoint. fold (pid st p). by rewrite Hp. Qed.

Lemma removePoint_hit p (st : State num) r :
  reg st !! pid st p = Some r →
  _removePoint p st
  = set_pointMarkers (delete (pid st p) (reg st)) (destroy_marker r st).
Proof. intros Hp. unfold _removePoint. fold (pid st p). by rewrite Hp. Qed.

Lemma mpoint_destroy (st : State num) r r' :
  mpoint (set_pointMarkers (delete (pid st (mpoint st r)) (reg st)) (destroy_marker r st)) r'
  = mpoint st r'.
Proof.
  unfold mpoint. cbn. destruct (decide (r = r')) as [->|Hne].
  - by rewrite fn_lookup_alter.
  - by rewrite fn_lookup_alter_ne.
Qed.

End Frames.

Section Purge.
Context {num : Type} {HN : JsNumber num}.
Variable isVisible : Point.t num → num → num → bool.

Local Abbreviation reg := _pointMarkers.
Local Abbreviation loop := (_removeInvisiblePoints_loop isVisible).
Local Abbreviation visible := (marker_visible isVisible).

(** Removing the point of a registered marker deletes that marker's key and
    nothing else. *)
Lemma removePoint_of_marker (st : State num) k r :
  registry_wf st → reg st !! k = Some r →
  let st' := _removePoint (mpoint st r) st in
  points st' = points st
  ∧ next_marker st' = next_marker st
  ∧ reg st' = delete k (reg st)
  ∧ (∀ r', mpoint st' r' = mpoint st r')
  ∧ (∀ r', PointMarker.getX (markers st' r') = PointMarker.getX (markers st r')).
Proof.
  intros Hwf Hk. destruct (Hwf _ _ Hk) as [_ Hid]. cbn zeta.
  assert (reg st !! pid st (mpoint st r) = Some r) as Hk' by by rewrite Hid.
  rewrite (removePoint_hit _ _ _ Hk'), Hid. cbn. split_frame; try done.
  - intros r'. unfold mpoint. cbn. destruct (decide (r = r')) as [->|Hne].
    + by rewrite fn_lookup_alter.
    + by rewrite fn_lookup_alter_ne.
  - intros r'. destruct (decide (r = r')) as [->|Hne].
    + by rewrite fn_lookup_alter.
    + by rewrite fn_lookup_alter_ne.
Qed.

Lemma registry_wf_delete (st st' : State num) k :
  registry_wf st → points st' = points st → next_marker st' = next_marker st →
  reg st' = delete k (reg st) → (∀ r, mpoint st' r = mpoint st r) →
  registry_wf st'.
Proof.
  intros Hwf Hp Hn Hr Hm k' r' Hk'. rewrite Hr in Hk'.
  apply lookup_delete_Some in Hk' as [_ Hk'].
  destruct (Hwf _ _ Hk') as [Hlt Hid]. unfold pid in *. by rewrite Hn, Hp, Hm.
Qed.

(** The loop keeps exactly the entries that are not among the enumerated
    keys or whose marker's point is visible; it moves no marker. *)
Lemma removeInvisiblePoints_loop_spec keys s e count (st : State num) :
  registry_wf st →
  let st' := (loop keys s e count st).2 in
  points st' = points st
  ∧ next_marker st' = next_marker st
  ∧ (∀ r, mpoint st' r = mpoint st r)
  ∧ (∀ r, PointMarker.getX (markers st' r) = PointMarker.getX (markers st r))
  ∧ (∀ k r, reg st' !! k = Some r ↔
            reg st !! k = Some r ∧ (k ∈ keys → visible st s e r = true)).
Proof.
  induction keys as [|k keys IH] in count, st |- *; intros Hwf; cbn zeta.
  - cbn. split_frame; try done. intros k r. split; [|by intros [? _]].
    intros Hk. split; [done|]. by intros ?%elem_of_nil.
  - cbn [_removeInvisiblePoints_loop].
    destruct (reg st !! k) as [r|] eqn:Hk.
    + fold (mpoint st r). fold (visible st s e r).
      destruct (visible st s e r) eqn:Hvis; cbn [negb].
      * destruct (IH count st Hwf) as (Hp & Hn & Hm & Hx & Hr).
        split_frame; try done. intros k' r'. rewrite Hr. split.
        -- intros [Hk' Hv]. split; [done|].
           intros [->|Hin]%elem_of_cons; [congruence | by apply Hv].
        -- intros [Hk' Hv]. split; [done|].
           intros Hin. apply Hv. by right.
      * destruct (removePoint_of_marker st k r Hwf Hk) as (Hp1 & Hn1 & Hr1 & Hm1 & Hx1).
        set (st1 := _removePoint (mpoint st r) st) in *.
        assert (registry_wf st1) as Hwf1 by by eapply registry_wf_delete.
        destruct (IH (S count) st1 Hwf1) as (Hp & Hn & Hm & Hx & Hr).
        split_frame.
        -- by rewrite Hp.
        -- by rewrite Hn.
        -- intros r'. by rewrite Hm.
        -- intros r'. by rewrite Hx.
        -- intros k' r'. rewrite Hr, Hr1, lookup_delete_Some.
           unfold marker_visible in *. rewrite Hp1, Hm1. split.
           ++ intros [[Hne Hk'] Hv]. split; [done|].
              intros [->|Hin]%elem_of_cons; [done | by apply Hv].
           ++ intros [Hk' Hv]. split; [split; [|done] |].
              ** intros <-. rewrite Hk in Hk'. injection Hk' as <-.
                 rewrite Hv in Hvis; [done | by left].
              ** intros Hin. apply Hv. by right.
    + destruct (IH count st Hwf) as (Hp & Hn & Hm & Hx & Hr).
      split_frame; try done. intros k' r'. rewrite Hr. split.
      * intros [Hk' Hv]. split; [done|].
        intros [->|Hin]%elem_of_cons; [congruence | by apply Hv].
      * intros [Hk' Hv]. split; [done|].
        intros Hin. apply Hv. by right.
Qed.

Lemma elem_of_registry_keys (m : gmap string MarkerRef) k :
  k ∈ (map_to_list m).*1 ↔ is_Some (m !! k).
Proof.
  rewrite list_elem_of_fmap. split.
  - intros ([k' r] & -> & Hin). apply elem_of_map_to_list in Hin. by exists r.
  - intros [r Hr]. exists (k, r). split; [done|]. by apply elem_of_map_to_list.
Qed.

(** [_removeInvisiblePoints] keeps exactly the markers of visible points. *)
Lemma removeInvisiblePoints_spec s e (st : State num) :
  registry_wf st →
  let st' := (_removeInvisiblePoints isVisible s e st).2 in
  points st' = points st
  ∧ next_marker st' = next_marker st
  ∧ (∀ r, mpoint st' r = mpoint st r)
  ∧ (∀ r, PointMarker.getX (markers st' r) = PointMarker.getX (markers st r))
  ∧ (∀ k r, reg st' !! k = Some r ↔
            reg st !! k = Some r ∧ visible st s e r = true).
Proof.
  intros Hwf. unfold _removeInvisiblePoints.
  destruct (removeInvisiblePoints_loop_spec (map_to_list (reg st)).*1 s e 0 st Hwf)
    as (Hp & Hn & Hm & Hx & Hr).
  split_frame; try done. intros k r. rewrite Hr. split.
  - intros [Hk Hv]. split; [done|]. apply Hv, elem_of_registry_keys. by exists r.
  - intros [Hk Hv]. by split.
Qed.

(** With only visible points registered the loop returns the state as it
    got it and counts nothing. *)
Lemma removeInvisiblePoints_loop_noop keys s e count (st : State num) :
  map_Forall (λ _ r, visible st s e r = true) (reg st) →
  loop keys s e count st = (count, st).
Proof.
  intros Hall. induction keys as [|k keys IH]; [done|].
  cbn [_removeInvisiblePoints_loop].
  destruct (reg st !! k) as [r|] eqn:Hk; [|done].
  fold (mpoint st r). fold (visible st s e r).
  by rewrite (Hall _ _ Hk).
Qed.

End Purge.

Section Synchronisation.
Context {num : Type} {HN : JsNumber num}.
Variable isVisible : Point.t num → num → num → bool.
Variable peaks : Peaks.t num.
Variable view : View.t num.

Local Abbreviation reg := _pointMarkers.
Local Abbreviation sync := (updatePoints isVisible peaks view).

Lemma updatePoints_unfold s e (st : State num) :
  sync s e st
  = (_removeInvisiblePoints isVisible s e
       (update_all peaks view (Peaks.find peaks s e) st)).2.
Proof. reflexivity. Qed.

Lemma updatePoints_points s e (st : State num) :
  registry_wf st → points (sync s e st) = points st.
Proof.
  intros Hwf. rewrite updatePoints_unfold.
  destruct (removeInvisiblePoints_spec isVisible s e
              (update_all peaks view (Peaks.find peaks s e) st))
    as (Hp & _); [by apply update_all_wf|].
  by rewrite Hp, update_all_points.
Qed.

Lemma updatePoints_wf s e (st : State num) :
  registry_wf st → registry_wf (sync s e st).
Proof.
  intros Hwf. rewrite updatePoints_unfold.
  pose proof (update_all_wf peaks view (Peaks.find peaks s e) st Hwf) as Hwf1.
  destruct (removeInvisiblePoints_spec isVisible s e _ Hwf1) as (Hp & Hn & Hm & _ & Hr).
  intros k r Hk. apply Hr in Hk as [Hk _]. destruct (Hwf1 _ _ Hk) as [Hlt Hid].
  unfold pid in *. by rewrite Hn, Hp, Hm.
Qed.

Lemma find_visible_in_store s e (st : State num) :
  find_visible isVisible peaks st s e →
  Forall (λ p, p ∈ Peaks.points peaks) (Peaks.find peaks s e).
Proof. intros [Hf _]. eapply list.Forall_impl; [exact Hf|]. by intros p [? _]. Qed.

(** What a synchronisation pass establishes. *)
Lemma updatePoints_sound s e (st : State num) :
  registry_wf st → registry_in_store peaks st → unique_ids peaks st →
  find_visible isVisible peaks st s e →
  let st' := sync s e st in
  registry_in_store peaks st'
  ∧ map_Forall (λ _ r, marker_visible isVisible st' s e r = true) (reg st')
  ∧ Forall (λ p, ∃ r, reg st' !! pid st' p = Some r
                      ∧ mpoint st' r = p
                      ∧ PointMarker.getX (markers st' r) = marker_position view st' p)
      (Peaks.find peaks s e).
Proof.
  intros Hwf Hin Hu Hfind. cbn zeta.
  pose proof (find_visible_in_store _ _ _ Hfind) as Hfs.
  pose proof (updatePoints_points s e st Hwf) as Hpts.
  rewrite updatePoints_unfold in *.
  set (st1 := update_all peaks view (Peaks.find peaks s e) st) in *.
  assert (registry_wf st1) as Hwf1 by by apply update_all_wf.
  assert (registry_in_store peaks st1) as Hin1 by by apply update_all_in_store.
  destruct (removeInvisiblePoints_spec isVisible s e st1 Hwf1) as (Hp & Hn & Hm & Hx & Hr).
  set (st2 := (_removeInvisiblePoints isVisible s e st1).2) in *.
  split; [|split].
  - intros k r Hk. cbn. rewrite Hm. apply Hr in Hk as [Hk _]. exact (Hin1 _ _ Hk).
  - intros k r Hk. cbn. apply Hr in Hk as [_ Hv].
    unfold marker_visible in *. by rewrite Hp, Hm.
  - apply list.Forall_forall. intros p Hpf.
    destruct (update_all_placed peaks view _ st p Hwf Hu Hfs Hpf) as (r & Hk & Hpos).
    fold st1 in Hk, Hpos.
    assert (mpoint st1 r = p) as Hmp.
    { destruct (Hwf1 _ _ Hk) as [_ Hid]. unfold st1 in Hid at 1.
      rewrite update_all_pid in Hid.
      eapply unique_ids_eq; [exact Hu| |by eapply (proj1 (list.Forall_forall _ _) Hfs)|done].
      exact (Hin1 _ _ Hk). }
    exists r. unfold pid, marker_position. rewrite Hpts, Hm, Hx. split; [|done].
    apply Hr. split; [done|]. unfold marker_visible. rewrite Hmp.
    unfold st1. rewrite update_all_points.
    destruct Hfind as [Hf _]. rewrite list.Forall_forall in Hf. by apply Hf.
Qed.

End Synchronisation.

(** ** The registry invariant holds in every reachable state *)

Section Reachable.
Context {num : Type} {HN : JsNumber num}.
Variable isVisible : Point.t num → num → num → bool.

Local Abbreviation reg := _pointMarkers.

Lemma PointsLayer_wf allowEditing (heap : PointRef → Point.t num) blank :
  registry_wf (PointsLayer allowEditing heap blank).
Proof. unfold registry_wf. cbn. apply map_Forall_empty. Qed.

Lemma addPointMarker_wf peaks view p (st : State num) :
  registry_wf st → registry_wf (_addPointMarker peaks view p st).2.
Proof.
  intros Hwf k r. cbn. fold (pid st p). rewrite lookup_insert.
  case_decide as Hk.
  - intros [= <-]. split; [lia|]. unfold pid, mpoint. cbn. by rewrite fn_lookup_insert.
  - intros Hr. destruct (Hwf _ _ Hr) as [Hlt Hid]. split; [lia|].
    unfold pid, mpoint in *. cbn. rewrite fn_lookup_insert_ne; [done|lia].
Qed.

Lemma removePoint_wf p (st : State num) : registry_wf st → registry_wf (_removePoint p st).
Proof.
  intros Hwf. destruct (reg st !! pid st p) as [r|] eqn:Hp.
  - rewrite (removePoint_hit _ _ _ Hp).
    eapply (registry_wf_delete st _ (pid st p)); try done.
    intros r'. unfold mpoint. cbn. destruct (decide (r = r')) as [->|Hne].
    + by rewrite fn_lookup_alter.
    + by rewrite fn_lookup_alter_ne.
  - by rewrite removePoint_miss.
Qed.

Lemma emit_wf peaks view tp p e (st : State num) :
  registry_wf st → registry_wf (emit peaks view tp p e st).
Proof.
  intros Hwf. unfold emit, _onPointsDrag. case_bool_decide; [|done].
  by apply updatePoint_wf.
Qed.

Lemma step_wf peaks view (ev : Event num) (st st' : State num) :
  registry_wf st → step isVisible peaks view ev st = Some st' → registry_wf st'.
Proof.
  intros Hwf. destruct ev; cbn [step]; try (intros [= <-]).
  - unfold _onPointsUpdate. apply updatePoints_wf.
    destruct (isVisible _ _ _); [apply addPointMarker_wf|]; by apply removePoint_wf.
  - unfold _onPointsAdd. apply updatePoints_wf.
    induction pts as [|q pts IH] using rev_ind; [done|].
    rewrite foldl_app. cbn [foldl]. destruct (isVisible _ _ _); [|done].
    by apply addPointMarker_wf.
  - unfold _onPointsRemove. induction pts as [|q pts IH] using rev_ind; [done|].
    rewrite foldl_app. cbn [foldl]. by apply removePoint_wf.
  - unfold registry_wf. cbn. apply map_Forall_empty.
  - by apply updatePoint_wf.
  - by apply updatePoints_wf.
  - done.
  - by apply emit_wf.
  - by apply emit_wf.
  - by apply emit_wf.
  - by apply emit_wf.
  - by apply emit_wf.
  - unfold _onPointHandleDragStart. by apply emit_wf.
  - unfold _onPointHandleDragMove. destruct (reg st !! _) as [r|]; [|done].
    intros [= <-]. apply emit_wf. intros k r' Hk. cbn in Hk.
    destruct (Hwf _ _ Hk) as [Hlt Hid]. split; [done|].
    unfold pid, mpoint in *. cbn.
    assert (PointMarker.getPoint
              (alter (PointMarker.timeUpdated
                        (Point.time (alter (Point._setTime
                           (View.pixelOffsetToTime view
                              (num_add (PointMarker.getX (markers st r))
                                 (PointMarker.getWidth (markers st r))))) pt (points st) pt)))
                 r (markers st) r')
            = PointMarker.getPoint (markers st r')) as ->.
    { destruct (decide (r = r')) as [->|Hne].
      - by rewrite fn_lookup_alter.
      - by rewrite fn_lookup_alter_ne. }
    destruct (decide (pt = PointMarker.getPoint (markers st r'))) as [Heq|Hne].
    + rewrite <- Heq in *. rewrite fn_lookup_alter. exact Hid.
    + by rewrite fn_lookup_alter_ne.
  - unfold _onPointHandleDragEnd. by apply emit_wf.
Qed.

(** Every state the layer reaches from its construction satisfies the
    registry invariant. *)
Lemma run_wf evs (st st' : State num) :
  registry_wf st → run isVisible evs st = Some st' → registry_wf st'.
Proof.
  induction evs as [|[[pk vw] ev] evs IH] in st |- *; intros Hwf.
  - by intros [= <-].
  - cbn [run]. destruct (step isVisible pk vw ev st) as [st1|] eqn:Hstep; [|done].
    apply IH. by eapply step_wf.
Qed.

End Reachable.

(** ** Synchronising with the visible window *)

Section SynchronisationTheorems.
Context {num : Type} {HN : JsNumber num}.
Variable isVisible : Point.t num → num → num → bool.
Variable peaks : Peaks.t num.
Variable view : View.t num.

Local Abbreviation sync := (updatePoints isVisible peaks view).


(** C2 (idempotence).  A second [updatePoints] over the same window and an
    unchanged store leaves the registry as the first call left it, builds
    no marker and changes no marker object: none is destroyed, none
    moves. *)
Theorem updatePoints_twice (s e : num) (st : State num) :
  registry_wf st → registry_in_store peaks st → unique_ids peaks st →
  find_visible isVisible peaks st s e →
  let st1 := sync s e st in
  let st2 := sync s e st1 in
  _pointMarkers st2 = _pointMarkers st1
  ∧ next_marker st2 = next_marker st1
  ∧ _layer st2 = _layer st1
  ∧ (∀ r, markers st2 r = markers st1 r).
Proof.
  intros Hwf Hin Hu Hfind. cbn zeta.
  destruct (updatePoints_sound isVisible peaks view s e st Hwf Hin Hu Hfind)
    as (_ & Hvis & Hplaced).
  set (st1 := sync s e st) in *.
  assert (Forall (λ p, ∃ r, _pointMarkers st1 !! pid st1 p = Some r
                            ∧ PointMarker.getX (markers st1 r) = marker_position view st1 p)
            (Peaks.find peaks s e)) as Hready.
  { eapply list.Forall_impl; [exact Hplaced|]. intros p (r & Hk & _ & Hx). by exists r. }
  destruct (update_all_noop peaks view _ st1 Hready) as (f & Hf & Hext).
  rewrite (updatePoints_unfold isVisible peaks view s e st1), Hf.
  unfold _removeInvisiblePoints.
  rewrite removeInvisiblePoints_loop_noop.
  - cbn. by repeat split.
  - intros k r Hk. cbn in *. unfold marker_visible, mpoint. cbn. rewrite Hext.
    exact (Hvis _ _ Hk).
Qed.


End SynchronisationTheorems.


(** ** Removal *)

Section Removal.
Context {num : Type} {HN : JsNumber num}.

Lemma onPointsRemove_snoc ps q (st : State num) :
  _onPointsRemove (ps ++ [q]) st = _removePoint q (_onPointsRemove ps st).
Proof. unfold _onPointsRemove. by rewrite foldl_app. Qed.



(** After [points.remove_all] the registry is empty and the layer has no
    child; no marker object was touched, so none was destroyed. *)
Lemma onPointsRemoveAll_spec (st : State num) :
  let st' := _onPointsRemoveAll st in
  _pointMarkers st' = ∅ ∧ _layer st' = [] ∧ markers st' = markers st.
Proof. done. Qed.

End Removal.

(** C5 (reset correctness) fails on the code.  In the layer showing the
    points "a" and "b", [points.remove_all] empties the registry and the
    layer, but the two marker objects are still alive afterwards, whereas
    [points.remove] of the same points destroys them. *)
Theorem onPointsRemoveAll_leaves_markers_alive :
  let st' := _onPointsRemoveAll Demo.st1 in
  _pointMarkers Demo.st1 !! "a" = Some 0
  ∧ _pointMarkers Demo.st1 !! "b" = Some 1
  ∧ _pointMarkers st' = ∅
  ∧ _layer st' = []
  ∧ PointMarker.destroyed (markers st' 0) = false
  ∧ PointMarker.destroyed (markers st' 1) = false
  ∧ PointMarker.destroyed (markers (_onPointsRemove [0; 1] Demo.st1) 0) = true
  ∧ PointMarker.destroyed (markers (_onPointsRemove [0; 1] Demo.st1) 1) = true.
Proof. vm_compute. by repeat split. Qed.


(** ** What the handlers leave alone *)

Section HandlerFrames.
Context {num : Type} {HN : JsNumber num}.
Variable isVisible : Point.t num → num → num → bool.
Variable peaks : Peaks.t num.
Variable view : View.t num.

Local Abbreviation reg := _pointMarkers.

Lemma updatePoint_drag p (st : State num) :
  _dragPointMarker (_updatePoint peaks view p st) = _dragPointMarker st.
Proof.
  unfold _updatePoint, _findOrAddPointMarker. by destruct (reg st !! _).
Qed.

Lemma update_all_drag ps (st : State num) :
  _dragPointMarker (update_all peaks view ps st) = _dragPointMarker st.
Proof.
  induction ps as [|q ps IH] using rev_ind; [done|].
  by rewrite update_all_snoc, updatePoint_drag.
Qed.

Lemma removePoint_drag p (st : State num) :
  _dragPointMarker (_removePoint p st) = _dragPointMarker st.
Proof. unfold _removePoint. by destruct (reg st !! _). Qed.

Lemma removeInvisiblePoints_loop_drag keys s e count (st : State num) :
  _dragPointMarker (_removeInvisiblePoints_loop isVisible keys s e count st).2
  = _dragPointMarker st.
Proof.
  induction keys as [|k keys IH] in count, st |- *; [done|].
  cbn [_removeInvisiblePoints_loop]. destruct (reg st !! k); [|done].
  destruct (negb _); [|done]. by rewrite IH, removePoint_drag.
Qed.

Lemma updatePoints_drag s e (st : State num) :
  _dragPointMarker (updatePoints isVisible peaks view s e st) = _dragPointMarker st.
Proof.
  rewrite updatePoints_unfold. unfold _removeInvisiblePoints.
  by rewrite removeInvisiblePoints_loop_drag, update_all_drag.
Qed.

Lemma onPointsAdd_drag pts (st : State num) :
  _dragPointMarker (_onPointsAdd isVisible peaks view pts st) = _dragPointMarker st.
Proof.
  unfold _onPointsAdd. rewrite updatePoints_drag.
  induction pts as [|q pts IH] using rev_ind; [done|].
  rewrite foldl_app. cbn. by destruct (isVisible _ _ _).
Qed.

Lemma onPointsRemove_drag pts (st : State num) :
  _dragPointMarker (_onPointsRemove pts st) = _dragPointMarker st.
Proof.
  unfold _onPointsRemove. induction pts as [|q pts IH] using rev_ind; [done|].
  by rewrite foldl_app; cbn; rewrite removePoint_drag.
Qed.

Lemma emit_drag tp p e (st : State num) :
  _dragPointMarker (emit peaks view tp p e st) = _dragPointMarker st.
Proof.
  unfold emit, _onPointsDrag. case_bool_decide; [|done]. by rewrite updatePoint_drag.
Qed.


(** Emitting a drag topic for a point that has its marker repositions the
    marker and records the call. *)
Lemma emit_drag_topic_hit tp p e (st : State num) r :
  tp ∈ drag_topics → reg st !! pid st p = Some r →
  emit peaks view tp p e st
  = set_markers (alter (PointMarker.setX (marker_position view st p)) r (markers st))
      (set_emitted (emitted st ++ [mkEmitted tp p e]) st).
Proof.
  intros Htp Hr. unfold emit, _onPointsDrag. rewrite bool_decide_eq_true_2 by done.
  cbn [point]. by rewrite (updatePoint_hit peaks view p _ r).
Qed.

End HandlerFrames.

(** ** The drag session *)

Section DragSession.
Context {num : Type} {HN : JsNumber num}.
Variable isVisible : Point.t num → num → num → bool.

(** One notification changes the session only if it is a drag start, which
    sets it to the marker registered for the started point, or a drag end,
    which clears it. *)
Lemma step_drag_session peaks view (ev : Event num) (st st' : State num) :
  step isVisible peaks view ev st = Some st' →
  _dragPointMarker st'
  = match ev with
    | HandleDragStart _ pt => _pointMarkers st !! Point.id (points st pt)
    | HandleDragEnd _ _ => None
    | _ => _dragPointMarker st
    end.
Proof.
  destruct ev; cbn [step]; try (intros [= <-]).
  - unfold _onPointsUpdate. rewrite updatePoints_drag.
    destruct (isVisible _ _ _); cbn; by rewrite removePoint_drag.
  - apply onPointsAdd_drag.
  - apply onPointsRemove_drag.
  - done.
  - apply updatePoint_drag.
  - apply updatePoints_drag.
  - done.
  - apply emit_drag.
  - apply emit_drag.
  - apply emit_drag.
  - apply emit_drag.
  - apply emit_drag.
  - unfold _onPointHandleDragStart. by rewrite emit_drag.
  - unfold _onPointHandleDragMove. destruct (_pointMarkers st !! _); [|done].
    intros [= <-]. by rewrite emit_drag.
  - unfold _onPointHandleDragEnd. by rewrite emit_drag.
Qed.

(** C9 (single drag session).  The session is one optional marker
    reference.  A drag start sets it to the marker registered for the
    started point, a drag end clears it, and no other notification changes
    it: over any sequence of notifications free of drag starts and drag
    ends it stays what it was, so it stays the started marker from a drag
    start to the next drag end or drag start. *)
Theorem drag_session_single peaks view (e : KonvaEvent) (pt : PointRef)
    (evs : list (Peaks.t num * View.t num * Event num)) (st st' : State num) :
  Forall (λ pve, is_drag_start pve.2 = false ∧ is_drag_end pve.2 = false) evs →
  (run isVisible evs st = Some st' → _dragPointMarker st' = _dragPointMarker st)
  ∧ (run isVisible ((peaks, view, HandleDragStart e pt) :: evs) st = Some st' →
     _dragPointMarker st' = _pointMarkers st !! Point.id (points st pt))
  ∧ (run isVisible (evs ++ [(peaks, view, HandleDragEnd e pt)]) st = Some st' →
     _dragPointMarker st' = None).
Proof.
  intros Hevs.
  assert (∀ st0 st1 : State num, run isVisible evs st0 = Some st1 →
            _dragPointMarker st1 = _dragPointMarker st0) as Hkeep.
  { induction Hevs as [|[[pk vw] ev] evs [Hs He] _ IH]; intros st0 st1.
    - by intros [= <-].
    - cbn [run]. destruct (step isVisible pk vw ev st0) as [st0'|] eqn:Hstep; [|done].
      intros Hrun. rewrite (IH _ _ Hrun), (step_drag_session _ _ _ _ _ Hstep).
      cbn in Hs, He. by destruct ev. }
  split; [apply Hkeep|]. split.
  - cbn [run step]. intros Hrun. rewrite (Hkeep _ _ Hrun).
    unfold _onPointHandleDragStart. by rewrite emit_drag.
  - clear Hkeep. revert st. induction Hevs as [|[[pk vw] ev] evs _ _ IH]; intros st.
    + cbn. intros [= <-]. unfold _onPointHandleDragEnd. by rewrite emit_drag.
    + cbn [app run]. destruct (step isVisible pk vw ev st); [apply IH|done].
Qed.

End DragSession.

(** ** Cross-view drags *)

Section CrossViewDrag.
Context {num : Type} {HN : JsNumber num}.
Variable isVisible : Point.t num → num → num → bool.
Variable peaks : Peaks.t num.
Variable view : View.t num.

Local Abbreviation reg := _pointMarkers.



End CrossViewDrag.


(** ** Dragging a marker *)

Section Dragging.
Context {num : Type} {HN : JsNumber num}.
Variable peaks : Peaks.t num.
Variable view : View.t num.

Local Abbreviation reg := _pointMarkers.

Lemma emit_points tp p e (st : State num) : points (emit peaks view tp p e st) = points st.
Proof.
  unfold emit, _onPointsDrag. case_bool_decide; [|done]. by rewrite updatePoint_points.
Qed.

(** The drag-move callback of a point that has its marker. *)
Lemma onPointHandleDragMove_hit (e : KonvaEvent) (p : PointRef) (r : MarkerRef)
    (st : State num) :
  reg st !! pid st p = Some r →
  let t := View.pixelOffsetToTime view
             (num_add (PointMarker.getX (markers st r)) (PointMarker.getWidth (markers st r))) in
  ∃ st', _onPointHandleDragMove peaks view e p st = Some st'
         ∧ points st' = alter (Point._setTime t) p (points st)
         ∧ reg st' = reg st
         ∧ _dragPointMarker st' = _dragPointMarker st
         ∧ PointMarker.timeLabel (markers st' r) = Some t
         ∧ (∀ r', mpoint st' r' = mpoint st r').
Proof.
  intros Hr t. unfold _onPointHandleDragMove. fold (pid st p). rewrite Hr. fold t.
  eexists. split; [reflexivity|].
  match goal with |- context [emit _ _ _ _ _ ?s] => set (st2 := s) end.
  assert (reg st2 !! pid st2 p = Some r) as Hr2.
  { unfold pid, st2. cbn. by rewrite fn_lookup_alter. }
  rewrite (emit_drag_topic_hit peaks view "points.dragmove" p (evt e) st2 r);
    [|unfold drag_topics; set_solver|done].
  cbn. split; [done|]. split; [done|]. split; [done|]. split.
  - by rewrite !fn_lookup_alter.
  - intros r'. unfold mpoint. cbn. destruct (decide (r = r')) as [<-|Hne].
    + by rewrite !fn_lookup_alter.
    + by rewrite !fn_lookup_alter_ne.
Qed.


Lemma clamp_inside (v lo hi : num) :
  num_ltb v lo = false → num_ltb hi v = false → clamp v lo hi = v.
Proof. unfold clamp. by intros -> ->. Qed.

(** C4 (drag), as the code has it.  Each drag-move callback of a point
    with a registered marker writes [pixelOffsetToTime(markerX + width)]
    into the point's time, through [_setTime], and into the marker's time
    label.  Over a whole gesture the engine first passes the proposed
    position through the layer's drag-bound function, so a start, a move to
    [x] and an end leave the point's time at
    [pixelOffsetToTime(clamp(x, 0, viewWidth) + width)], which is
    [pixelOffsetToTime(x + width)] whenever [x] lies within the view, and
    the session is cleared. *)
Theorem drag_sets_point_time (e : KonvaEvent) (p : PointRef) (r : MarkerRef)
    (pos : Pos num) (st : State num) :
  _pointMarkers st !! Point.id (points st p) = Some r →
  PointMarker.getPoint (markers st r) = p →
  let w := PointMarker.getWidth (markers st r) in
  let bounded := clamp (pos_x pos) num_zero (View.getWidth view) in
  (∃ st', _onPointHandleDragMove peaks view e p st = Some st'
          ∧ points st'
            = alter (Point._setTime
                       (View.pixelOffsetToTime view
                          (num_add (PointMarker.getX (markers st r)) w))) p (points st)
          ∧ PointMarker.timeLabel (markers st' r) = Some (Point.time (points st' p)))
  ∧ (∃ st', drag_gesture peaks view r pos e st = Some st'
            ∧ Point.time (points st' p) = View.pixelOffsetToTime view (num_add bounded w)
            ∧ PointMarker.timeLabel (markers st' r) = Some (Point.time (points st' p))
            ∧ _dragPointMarker st' = None)
  ∧ (num_ltb (pos_x pos) num_zero = false →
     num_ltb (View.getWidth view) (pos_x pos) = false →
     bounded = pos_x pos).
Proof.
  intros Hr Hp w bounded. fold (pid st p) in Hr. split; [|split].
  - destruct (onPointHandleDragMove_hit e p r st Hr) as (st' & Hst' & Hpts & _ & _ & Hl & _).
    exists st'. split; [done|]. split; [done|].
    by rewrite Hl, Hpts, fn_lookup_alter.
  - unfold drag_gesture. rewrite Hp.
    unfold _onPointHandleDragStart. fold (pid st p). rewrite Hr.
    rewrite (emit_drag_topic_hit peaks view "points.dragstart" p (evt e) _ r);
      [|unfold drag_topics; set_solver|done].
    unfold drag_to, _pointHandleDragBoundFunc. cbn [_dragPointMarker set_markers
      set_emitted set_dragPointMarker].
    match goal with |- context [_onPointHandleDragMove _ _ _ ?q ?s] =>
      assert (q = p) as Hq by (cbn; by rewrite !fn_lookup_alter);
      rewrite Hq; clear Hq; set (st1 := s)
    end.
    assert (reg st1 !! pid st1 p = Some r) as Hr1 by done.
    destruct (onPointHandleDragMove_hit e p r st1 Hr1)
      as (st2 & Hst2 & Hpts & Hreg & _ & Hl & _).
    rewrite Hst2. eexists. split; [reflexivity|].
    unfold _onPointHandleDragEnd.
    assert (reg (set_dragPointMarker None st2) !! pid (set_dragPointMarker None st2) p
            = Some r) as Hr2.
    { unfold pid. simpl. by rewrite Hreg, Hpts, fn_lookup_alter. }
    split; [|split].
    + rewrite emit_points. cbn. rewrite Hpts, fn_lookup_alter. cbn.
      unfold st1. cbn. rewrite !fn_lookup_alter. done.
    + rewrite emit_points.
      rewrite (emit_drag_topic_hit peaks view "points.dragend" p (evt e) _ r);
        [|unfold drag_topics; set_solver|done].
      cbn. rewrite fn_lookup_alter. cbn. rewrite Hl, Hpts, fn_lookup_alter. done.
    + by rewrite emit_drag.
  - apply clamp_inside.
Qed.

End Dragging.

Lemma drag_sets_point_time_witness :
  (λ st', Point.time (points st' 0)) <$>
    drag_gesture Demo.peaks (Demo.view 0 6) 0 (mkPos 30%Z 7%Z) (mkKonvaEvent 0) Demo.st1
  = Some 3%Z.
Proof.
  destruct (drag_sets_point_time Demo.peaks (Demo.view 0 6) (mkKonvaEvent 0) 0 0
              (mkPos 30%Z 7%Z) Demo.st1) as (_ & (st' & Hst' & Ht & _) & _);
    [reflexivity | reflexivity |].
  rewrite Hst'. cbn [fmap option_fmap option_map]. f_equal. exact Ht.
Defined.

(** The drag round trip as stated fails beyond the view: a move to pixel
    1000 in a view 60 pixels wide leaves the point at the time of pixel 60,
    not at the time of pixel 1000. *)
Lemma drag_beyond_view_is_clamped :
  let after :=
    (λ st', Point.time (points st' 0)) <$>
      drag_gesture Demo.peaks (Demo.view 0 6) 0 (mkPos 1000%Z 7%Z) (mkKonvaEvent 0) Demo.st1 in
  let stated :=
    View.pixelOffsetToTime (Demo.view 0 6)
      (num_add 1000%Z (PointMarker.getWidth (markers Demo.st1 0))) in
  after = Some 6%Z ∧ stated = 100%Z ∧ after ≠ Some stated.
Proof. split; [reflexivity|]. split; [reflexivity|]. discriminate. Qed.

(** ** Updating one point *)

Section UpdateOne.
Context {num : Type} {HN : JsNumber num}.
Variable isVisible : Point.t num → num → num → bool.
Variable peaks : Peaks.t num.
Variable view : View.t num.

Local Abbreviation reg := _pointMarkers.



End UpdateOne.


(** ** Building a marker *)

Section Styling.
Context {num : Type} {HN : JsNumber num}.
Variable peaks : Peaks.t num.
Variable view : View.t num.

Lemma js_or_truthy {A} (truthy : A → bool) (a : option A) (b v : A) :
  a = Some v → truthy v = true → js_or truthy a b = v.
Proof. intros -> Hv. cbn. by rewrite Hv. Qed.

Lemma js_or_falsy {A} (truthy : A → bool) (a : option A) (b : A) :
  (∀ v, a = Some v → truthy v = false) → js_or truthy a b = b.
Proof. intros Hf. destruct a as [v|]; [|done]. cbn. by rewrite (Hf v). Qed.

(** C7 (marker styling), as the code has it.  A new marker is built by the
    host factory from: the point's colour when it is set to a non-empty
    string, else [pointMarkerColor]; the host's font family, size and
    style when set to a non-empty string or a non-zero number, else
    "sans-serif", 10 and "normal".  It is draggable exactly when both the
    layer's editing flag and the point's [editable] are true. *)
Theorem createPointMarker_styling (p : PointRef) (st : State num) :
  let pt := points st p in
  let o := Peaks.options peaks in
  let a := createPointMarker_args peaks view p st in
  let m := _createPointMarker peaks view p st in
  PointMarker._marker m = Options.createPointMarker o a
  ∧ PointMarker.getPoint m = p
  ∧ CreatePointMarkerOptions.point a = p
  ∧ (∀ c, Point.color pt = Some c → str_truthy c = true →
          CreatePointMarkerOptions.color a = c)
  ∧ ((∀ c, Point.color pt = Some c → str_truthy c = false) →
     CreatePointMarkerOptions.color a = Options.pointMarkerColor o)
  ∧ (∀ f, Options.fontFamily o = Some f → str_truthy f = true →
          CreatePointMarkerOptions.fontFamily a = f)
  ∧ ((∀ f, Options.fontFamily o = Some f → str_truthy f = false) →
     CreatePointMarkerOptions.fontFamily a = "sans-serif")
  ∧ (∀ n, Options.fontSize o = Some n → num_truthy n = true →
          CreatePointMarkerOptions.fontSize a = n)
  ∧ ((∀ n, Options.fontSize o = Some n → num_truthy n = false) →
     CreatePointMarkerOptions.fontSize a = num_of_Z 10)
  ∧ (∀ f, Options.fontStyle o = Some f → str_truthy f = true →
          CreatePointMarkerOptions.fontStyle a = f)
  ∧ ((∀ f, Options.fontStyle o = Some f → str_truthy f = false) →
     CreatePointMarkerOptions.fontStyle a = "normal")
  ∧ (PointMarker._draggable m = true ↔ _allowEditing st = true ∧ Point.editable pt = true)
  ∧ CreatePointMarkerOptions.draggable a = PointMarker._draggable m.
Proof.
  cbn zeta. unfold _createPointMarker, createPointMarker_args. cbn.
  split; [done|]. split; [done|]. split; [done|].
  split; [intros c; apply js_or_truthy|]. split; [apply js_or_falsy|].
  split; [intros f; apply js_or_truthy|]. split; [apply js_or_falsy|].
  split; [intros n; apply js_or_truthy|]. split; [apply js_or_falsy|].
  split; [intros f; apply js_or_truthy|]. split; [apply js_or_falsy|].
  split; [apply andb_true_iff | done].
Qed.

End Styling.

(** ** The theorems at work on the concrete layer *)

(** The scenario of the specification: the window from 0 s to 6 s shows
    the points at 1 s and 5 s only; scrolling to the window from 4 s to
    10 s destroys the first marker, keeps the second where the new frame
    puts it and builds one for the point at 9 s. *)
Example scenario_first_window :
  map_to_list (_pointMarkers Demo.st1) = [("a", 0); ("b", 1)]
  ∧ _layer Demo.st1 = [0; 1]
  ∧ PointMarker.getX (markers Demo.st1 0) = 10%Z
  ∧ PointMarker.getX (markers Demo.st1 1) = 50%Z.
Proof. vm_compute. by repeat split. Qed.

Example scenario_scrolled :
  let st2 := updatePoints Demo.isVisible Demo.peaks (Demo.view 4 10) 4%Z 10%Z Demo.st1 in
  map_to_list (_pointMarkers st2) = [("c", 2); ("b", 1)]
  ∧ _layer st2 = [1; 2]
  ∧ PointMarker.destroyed (markers st2 0) = true
  ∧ PointMarker.getX (markers st2 1) = 10%Z
  ∧ PointMarker.getX (markers st2 2) = 50%Z.
Proof. vm_compute. by repeat split. Qed.

Lemma updatePoints_twice_witness :
  let st1 := updatePoints Demo.isVisible Demo.peaks (Demo.view 4 10) 4%Z 10%Z Demo.st1 in
  let st2 := updatePoints Demo.isVisible Demo.peaks (Demo.view 4 10) 4%Z 10%Z st1 in
  _pointMarkers st2 = _pointMarkers st1
  ∧ next_marker st2 = next_marker st1
  ∧ _layer st2 = _layer st1
  ∧ (∀ r, markers st2 r = markers st1 r).
Proof.
  apply updatePoints_twice.
  - unfold registry_wf. decide_by_computation.
  - unfold registry_in_store. decide_by_computation.
  - unfold unique_ids. decide_by_computation.
  - unfold find_visible. decide_by_computation.
Defined.


Lemma drag_session_single_witness :
  ∃ st', run Demo.isVisible
           [(Demo.peaks, Demo.view 0 6, HandleDragStart (mkKonvaEvent 0) 1);
            (Demo.peaks, Demo.view 0 6, HandleClick (mkKonvaEvent 1) 0);
            (Demo.peaks, Demo.view 0 6, PointsDrag (mkPointEvent 2 0))] Demo.st1
         = Some st'
         ∧ _dragPointMarker st' = Some 1.
Proof.
  eexists. split; [reflexivity|].
  refine (proj1 (proj2 (drag_session_single Demo.isVisible Demo.peaks (Demo.view 0 6)
                          (mkKonvaEvent 0) 1
                          [(Demo.peaks, Demo.view 0 6, HandleClick (mkKonvaEvent 1) 0);
                           (Demo.peaks, Demo.view 0 6, PointsDrag (mkPointEvent 2 0))]
                          Demo.st1 _ _)) _).
  - repeat constructor.
  - reflexivity.
Defined.

Lemma createPointMarker_styling_witness :
  CreatePointMarkerOptions.color
    (createPointMarker_args Demo.peaks (Demo.view 0 6) 1 Demo.st0) = "red"
  ∧ CreatePointMarkerOptions.fontSize
      (createPointMarker_args Demo.peaks (Demo.view 0 6) 1 Demo.st0) = 10%Z.
Proof.
  destruct (createPointMarker_styling Demo.peaks (Demo.view 0 6) 1 Demo.st0)
    as (_ & _ & _ & Hc & _ & _ & _ & _ & Hs & _).
  split.
  - apply Hc; reflexivity.
  - apply Hs. intros n Hn. discriminate Hn.
Defined.

(** The styling rule as stated fails for a font size the host set to 0:
    the marker is built with size 10. *)
Lemma createPointMarker_zero_font_size :
  Options.fontSize (Peaks.options Demo.peaks_zero_font) = Some 0%Z
  ∧ CreatePointMarkerOptions.fontSize
      (createPointMarker_args Demo.peaks_zero_font (Demo.view 0 6) 0 Demo.st0) = 10%Z
  ∧ CreatePointMarkerOptions.fontSize
      (createPointMarker_args Demo.peaks_zero_font (Demo.view 0 6) 0 Demo.st0) ≠ 0%Z.
Proof. split; [reflexivity|]. split; [reflexivity|]. discriminate. Qed.

(** * Further properties of the layer *)

(** ** What the registry handlers leave alone *)

(** A relation between the state before and after that is kept by the
    three primitives is kept by everything built from them. *)
Section HandlerInduction.
Context {num : Type} {HN : JsNumber num}.
Variable isVisible : Point.t num → num → num → bool.
Variable R : State num → State num → Prop.
Hypothesis R_refl : ∀ st, R st st.
Hypothesis R_trans : ∀ a b c, R a b → R b c → R a c.
Hypothesis R_update : ∀ pk vw p st, R st (_updatePoint pk vw p st).
Hypothesis R_remove : ∀ p st, R st (_removePoint p st).
Hypothesis R_add : ∀ pk vw p st, R st (_addPointMarker pk vw p st).2.

Lemma R_update_all pk vw ps st : R st (update_all pk vw ps st).
Proof.
  induction ps as [|q ps IH] using rev_ind; [apply R_refl|].
  rewrite update_all_snoc. eapply R_trans; [exact IH|apply R_update].
Qed.

Lemma R_removeInvisiblePoints_loop keys s e count st :
  R st (_removeInvisiblePoints_loop isVisible keys s e count st).2.
Proof.
  induction keys as [|k keys IH] in count, st |- *; [apply R_refl|].
  cbn [_removeInvisiblePoints_loop]. destruct (_pointMarkers st !! k); [|apply IH].
  destruct (negb _); [|apply IH].
  eapply R_trans; [apply R_remove|apply IH].
Qed.

Lemma R_updatePoints pk vw s e st : R st (updatePoints isVisible pk vw s e st).
Proof.
  rewrite updatePoints_unfold. eapply R_trans; [apply R_update_all|].
  apply R_removeInvisiblePoints_loop.
Qed.

Lemma R_onPointsUpdate pk vw p st : R st (_onPointsUpdate isVisible pk vw p st).
Proof.
  unfold _onPointsUpdate. eapply R_trans; [|apply R_updatePoints].
  destruct (isVisible _ _ _); [|apply R_remove].
  eapply R_trans; [apply R_remove|apply R_add].
Qed.

Lemma R_onPointsAdd pk vw pts st : R st (_onPointsAdd isVisible pk vw pts st).
Proof.
  unfold _onPointsAdd. eapply R_trans; [|apply R_updatePoints].
  induction pts as [|q pts IH] using rev_ind; [apply R_refl|].
  rewrite foldl_app. cbn [foldl]. destruct (isVisible _ _ _); [|exact IH].
  eapply R_trans; [exact IH|apply R_add].
Qed.

Lemma R_onPointsRemove pts st : R st (_onPointsRemove pts st).
Proof.
  induction pts as [|q pts IH] using rev_ind; [apply R_refl|].
  rewrite onPointsRemove_snoc. eapply R_trans; [exact IH|apply R_remove].
Qed.

End HandlerInduction.

(** ** The layer invariant *)

Section LayerInvariant.
Context {num : Type} {HN : JsNumber num}.
Variable isVisible : Point.t num → num → num → bool.

Local Abbreviation reg := _pointMarkers.

Lemma addPointMarker_inv pk vw p (st : State num) :
  layer_inv st → layer_inv (_addPointMarker pk vw p st).2.
Proof.
  intros (Hwf & Hlive & Hlay). split; [by apply addPointMarker_wf|]. split.
  - intros k r. cbn. rewrite lookup_insert. case_decide as Hk.
    + intros [= <-]. rewrite fn_lookup_insert. split; [done|].
      apply elem_of_app. right. by apply list_elem_of_singleton.
    + intros Hr. destruct (Hwf _ _ Hr) as [Hlt _]. destruct (Hlive _ _ Hr) as [Ha Hin].
      rewrite fn_lookup_insert_ne by lia. split; [done|].
      apply elem_of_app. by left.
  - unfold layer_allocated in *. cbn. apply Forall_app. split.
    + eapply list.Forall_impl; [exact Hlay|]. cbn. lia.
    + apply list.Forall_singleton. lia.
Qed.

Lemma alter_marker_inv (f : PointMarker.t num → PointMarker.t num) r (st : State num) :
  (∀ m, PointMarker._point (f m) = PointMarker._point m) →
  (∀ m, PointMarker.destroyed (f m) = PointMarker.destroyed m) →
  layer_inv st → layer_inv (set_markers (alter f r (markers st)) st).
Proof.
  intros Hpt Hd (Hwf & Hlive & Hlay).
  assert (∀ r', PointMarker._point (alter f r (markers st) r') = PointMarker._point (markers st r')
                ∧ PointMarker.destroyed (alter f r (markers st) r')
                  = PointMarker.destroyed (markers st r')) as Hsame.
  { intros r'. destruct (decide (r = r')) as [->|Hne].
    - by rewrite fn_lookup_alter.
    - by rewrite fn_lookup_alter_ne. }
  split; [|split; [|done]].
  - intros k r' Hr. destruct (Hwf _ _ Hr) as [Hlt Hid]. split; [done|].
    unfold pid, mpoint, PointMarker.getPoint in *. cbn.
    by rewrite (proj1 (Hsame r')).
  - intros k r' Hr. destruct (Hlive _ _ Hr) as [Ha Hin]. cbn.
    by rewrite (proj2 (Hsame r')).
Qed.

Lemma updatePoint_inv pk vw p (st : State num) :
  layer_inv st → layer_inv (_updatePoint pk vw p st).
Proof.
  intros Hinv. unfold _updatePoint, _findOrAddPointMarker.
  destruct (reg st !! _).
  - by apply alter_marker_inv.
  - apply (alter_marker_inv _ _ (_addPointMarker pk vw p st).2); [done|done|].
    by apply addPointMarker_inv.
Qed.

Lemma removePoint_inv p (st : State num) : layer_inv st → layer_inv (_removePoint p st).
Proof.
  intros (Hwf & Hlive & Hlay). split; [by apply removePoint_wf|].
  destruct (reg st !! pid st p) as [r|] eqn:Hp; [|by rewrite removePoint_miss].
  rewrite (removePoint_hit _ _ _ Hp). split.
  - intros k r'. cbn. intros [Hne Hr]%lookup_delete_Some.
    destruct (Hlive _ _ Hr) as [Ha Hin].
    assert (r ≠ r') as Hrr.
    { intros ->. apply Hne. by eapply registry_wf_inj. }
    rewrite fn_lookup_alter_ne by done. split; [done|].
    apply list_elem_of_filter. split; [congruence|done].
  - unfold layer_allocated in *. cbn. apply list.Forall_forall.
    intros c [_ Hc]%list_elem_of_filter. rewrite list.Forall_forall in Hlay. by apply Hlay.
Qed.

Lemma emit_inv pk vw tp p e (st : State num) : layer_inv st → layer_inv (emit pk vw tp p e st).
Proof.
  intros Hinv. unfold emit, _onPointsDrag. case_bool_decide; [|done].
  by apply updatePoint_inv.
Qed.

Lemma step_inv pk vw (ev : Event num) (st st' : State num) :
  layer_inv st → step isVisible pk vw ev st = Some st' → layer_inv st'.
Proof.
  pose (R := λ a b : State num, layer_inv a → layer_inv b).
  assert (∀ st, R st st) as Rr by (by intros ? ?).
  assert (∀ a b c, R a b → R b c → R a c) as Rt by (intros a b c Hab Hbc Ha; auto).
  assert (∀ pk vw p st, R st (_updatePoint pk vw p st)) as Ru
    by (intros; intros ?; by apply updatePoint_inv).
  assert (∀ p st, R st (_removePoint p st)) as Rm
    by (intros; intros ?; by apply removePoint_inv).
  assert (∀ pk vw p st, R st (_addPointMarker pk vw p st).2) as Ra
    by (intros; intros ?; by apply addPointMarker_inv).
  intros Hinv. destruct ev; cbn [step]; try (intros [= <-]).
  - by apply (R_onPointsUpdate isVisible R Rr Rt Ru Rm Ra).
  - by apply (R_onPointsAdd isVisible R Rr Rt Ru Rm Ra).
  - by apply (R_onPointsRemove R Rr Rt Rm).
  - split; [|split]; [unfold registry_wf|unfold registry_live|unfold layer_allocated];
      cbn; [apply map_Forall_empty|apply map_Forall_empty|constructor].
  - by apply updatePoint_inv.
  - by apply (R_updatePoints isVisible R Rr Rt Ru Rm).
  - done.
  - by apply emit_inv.
  - by apply emit_inv.
  - by apply emit_inv.
  - by apply emit_inv.
  - by apply emit_inv.
  - unfold _onPointHandleDragStart. by apply emit_inv.
  - unfold _onPointHandleDragMove. destruct (reg st !! _) as [r|]; [|done].
    intros [= <-]. apply emit_inv.
    match goal with |- layer_inv (set_markers (alter ?f r _) ?s) =>
      apply (alter_marker_inv f r s); [done|done|] end.
    destruct Hinv as (Hwf & Hlive & Hlay). split; [|done].
    intros k r' Hk. destruct (Hwf _ _ Hk) as [Hlt Hid]. split; [done|].
    unfold pid, mpoint in *. cbn.
    destruct (decide (pt = PointMarker.getPoint (markers st r'))) as [Heq|Hne].
    + rewrite <- Heq in *. rewrite fn_lookup_alter. exact Hid.
    + by rewrite fn_lookup_alter_ne.
  - unfold _onPointHandleDragEnd. by apply emit_inv.
Qed.

(** X1.  In every state the layer reaches from its construction, whatever
    the notifications, the store and the view: each registry key is the id
    of the point its marker was built for, so no two keys share a marker;
    every registered marker is alive and a child of the layer; and every
    child of the layer is an allocated marker. *)
Theorem layer_inv_reachable allowEditing (heap : PointRef → Point.t num) blank
    (evs : list (Peaks.t num * View.t num * Event num)) (st : State num) :
  run isVisible evs (PointsLayer allowEditing heap blank) = Some st →
  layer_inv st
  ∧ (∀ k1 k2 r, reg st !! k1 = Some r → reg st !! k2 = Some r → k1 = k2).
Proof.
  intros Hrun.
  assert (layer_inv st) as Hinv.
  { assert (layer_inv (PointsLayer allowEditing heap blank)) as H0.
    { split; [apply PointsLayer_wf|]. split.
      - unfold registry_live. cbn. apply map_Forall_empty.
      - constructor. }
    revert Hrun H0. generalize (PointsLayer allowEditing heap blank).
    induction evs as [|[[pk vw] ev] evs IH]; intros st0.
    - by intros [= <-].
    - cbn [run]. destruct (step isVisible pk vw ev st0) as [st1|] eqn:Hstep; [|done].
      intros Hrun H0. apply (IH st1 Hrun). by eapply step_inv. }
  split; [done|]. intros k1 k2 r. apply registry_wf_inj. by destruct Hinv.
Qed.

End LayerInvariant.

(** ** What the layer never does *)

Section Frames2.
Context {num : Type} {HN : JsNumber num}.
Variable isVisible : Point.t num → num → num → bool.

Local Abbreviation reg := _pointMarkers.

Lemma removePoint_points p (st : State num) : points (_removePoint p st) = points st.
Proof. unfold _removePoint. by destruct (reg st !! _). Qed.

Lemma points_kept_refl (st : State num) : points_kept st st.
Proof. by intros q. Qed.

Lemma points_kept_trans (a b c : State num) :
  points_kept a b → points_kept b c → points_kept a c.
Proof.
  intros Hab Hbc q. destruct (Hab q) as (? & ? & ?). destruct (Hbc q) as (? & ? & ?).
  repeat split; congruence.
Qed.

Lemma points_eq_kept (st st' : State num) : points st' = points st → points_kept st st'.
Proof. intros Heq q. by rewrite Heq. Qed.

(** Apart from the drag-move callback no handler writes to a point, and
    the drag-move callback of a point writes to that point only. *)
Lemma step_points pk vw (ev : Event num) (st st' : State num) :
  step isVisible pk vw ev st = Some st' →
  (is_drag_move ev = false → points st' = points st)
  ∧ (∀ q, (∀ e, ev ≠ HandleDragMove e q) → points st' q = points st q)
  ∧ points_kept st st'.
Proof.
  pose (R := λ a b : State num, points b = points a).
  assert (∀ st, R st st) as Rr by done.
  assert (∀ a b c, R a b → R b c → R a c) as Rt by (intros a b c Hab Hbc; congruence).
  assert (∀ pk vw p st, R st (_updatePoint pk vw p st)) as Ru
    by (intros; apply updatePoint_points).
  assert (∀ p st, R st (_removePoint p st)) as Rm by (intros; apply removePoint_points).
  assert (∀ pk vw p st, R st (_addPointMarker pk vw p st).2) as Ra by done.
  intros Hstep.
  destruct (is_drag_move ev) eqn:Hdm.
  - destruct ev; try discriminate Hdm. cbn [step] in Hstep.
    unfold _onPointHandleDragMove in Hstep. destruct (reg st !! _) as [r|]; [|done].
    injection Hstep as <-. unfold points_kept. rewrite emit_points. cbn.
    split; [done|]. split.
    + intros q Hq. rewrite fn_lookup_alter_ne; [done|]. intros ->. by apply (Hq e).
    + intros q. destruct (decide (pt = q)) as [->|Hne].
      * rewrite fn_lookup_alter. repeat split; reflexivity.
      * by rewrite fn_lookup_alter_ne.
  - assert (points st' = points st) as Heq.
    { destruct ev; try discriminate Hdm; cbn [step] in Hstep; injection Hstep as <-.
      - apply (R_onPointsUpdate isVisible R Rr Rt Ru Rm Ra).
      - apply (R_onPointsAdd isVisible R Rr Rt Ru Rm Ra).
      - apply (R_onPointsRemove R Rr Rt Rm).
      - done.
      - apply updatePoint_points.
      - apply (R_updatePoints isVisible R Rr Rt Ru Rm).
      - done.
      - apply emit_points.
      - apply emit_points.
      - apply emit_points.
      - apply emit_points.
      - apply emit_points.
      - unfold _onPointHandleDragStart. by rewrite emit_points.
      - unfold _onPointHandleDragEnd. by rewrite emit_points. }
    split; [done|]. split; [by rewrite Heq | by apply points_eq_kept].
Qed.

(** X2.  Over any sequence of notifications the layer never changes the
    id, the editability or the colour of any point; it changes no point at
    all unless a drag-move callback runs, and then only the points whose
    markers were dragged. *)
Theorem points_written_only_by_drag_move
    (evs : list (Peaks.t num * View.t num * Event num)) (st st' : State num) :
  run isVisible evs st = Some st' →
  points_kept st st'
  ∧ (Forall (λ pve, is_drag_move pve.2 = false) evs → points st' = points st)
  ∧ (∀ q, Forall (λ pve, ∀ e, pve.2 ≠ HandleDragMove e q) evs →
          points st' q = points st q).
Proof.
  induction evs as [|[[pk vw] ev] evs IH] in st |- *.
  - intros [= <-]. split; [apply points_kept_refl|]. by split.
  - cbn [run]. destruct (step isVisible pk vw ev st) as [st1|] eqn:Hstep; [|done].
    intros Hrun. destruct (IH _ Hrun) as (Hk & Hall & Hq).
    destruct (step_points _ _ _ _ _ Hstep) as (Hall1 & Hq1 & Hk1).
    split; [by eapply points_kept_trans|]. split.
    + intros Hevs. apply list.Forall_cons in Hevs as [Hev Hevs].
      rewrite (Hall Hevs). by apply Hall1.
    + intros q Hevs. apply list.Forall_cons in Hevs as [Hev Hevs].
      rewrite (Hq q Hevs). by apply Hq1.
Qed.

Lemma updatePoint_emitted pk vw p (st : State num) :
  emitted (_updatePoint pk vw p st) = emitted st.
Proof. unfold _updatePoint, _findOrAddPointMarker. by destruct (reg st !! _). Qed.

Lemma removePoint_emitted p (st : State num) : emitted (_removePoint p st) = emitted st.
Proof. unfold _removePoint. by destruct (reg st !! _). Qed.

Lemma emit_emitted pk vw tp p e (st : State num) :
  emitted (emit pk vw tp p e st) = emitted st ++ [mkEmitted tp p e].
Proof.
  unfold emit, _onPointsDrag. case_bool_decide; [|done]. by rewrite updatePoint_emitted.
Qed.

(** X3.  Every pointer callback hands the bus exactly one notification,
    with the callback's own topic, the point and the raw event; the
    handlers of bus notifications and the public methods emit nothing.
    The click, double-click, mouse-enter, mouse-leave and context-menu
    callbacks do nothing else: the layer is otherwise as it was. *)
Theorem callbacks_emit_once pk vw (ev : Event num) (st st' : State num) :
  step isVisible pk vw ev st = Some st' →
  emitted st' = emitted st ++ option_list (emission ev)
  ∧ (is_forwarder ev = true →
     st' = set_emitted (emitted st ++ option_list (emission ev)) st).
Proof.
  pose (R := λ a b : State num, emitted b = emitted a).
  assert (∀ st, R st st) as Rr by done.
  assert (∀ a b c, R a b → R b c → R a c) as Rt by (intros a b c Hab Hbc; congruence).
  assert (∀ pk vw p st, R st (_updatePoint pk vw p st)) as Ru
    by (intros; apply updatePoint_emitted).
  assert (∀ p st, R st (_removePoint p st)) as Rm by (intros; apply removePoint_emitted).
  assert (∀ pk vw p st, R st (_addPointMarker pk vw p st).2) as Ra by done.
  intros Hst.
  destruct ev; cbn [step emission is_forwarder option_list] in *;
    try (apply (inj Some) in Hst; subst st');
    rewrite ?app_nil_r; try (split; [|done]); try (split; [|reflexivity]).
  - apply (R_onPointsUpdate isVisible R Rr Rt Ru Rm Ra).
  - apply (R_onPointsAdd isVisible R Rr Rt Ru Rm Ra).
  - apply (R_onPointsRemove R Rr Rt Rm).
  - done.
  - apply updatePoint_emitted.
  - apply (R_updatePoints isVisible R Rr Rt Ru Rm).
  - done.
  - apply emit_emitted.
  - apply emit_emitted.
  - apply emit_emitted.
  - apply emit_emitted.
  - apply emit_emitted.
  - unfold _onPointHandleDragStart. by rewrite emit_emitted.
  - unfold _onPointHandleDragMove in Hst.
    destruct (reg st !! _) as [r|]; [|done].
    injection Hst as <-. by rewrite emit_emitted.
  - unfold _onPointHandleDragEnd. by rewrite emit_emitted.
Qed.

End Frames2.

(** ** Marker objects over time *)

Section MarkersKept.
Context {num : Type} {HN : JsNumber num}.
Variable isVisible : Point.t num → num → num → bool.

Local Abbreviation reg := _pointMarkers.

Lemma markers_kept_refl (st : State num) : markers_kept st st.
Proof. split; [done|]. by intros r _. Qed.

Lemma markers_kept_trans (a b c : State num) :
  markers_kept a b → markers_kept b c → markers_kept a c.
Proof.
  intros [Hn1 H1] [Hn2 H2]. split; [lia|]. intros r Hr.
  destruct (H1 r Hr) as (? & ? & ? & Hd1).
  destruct (H2 r ltac:(lia)) as (? & ? & ? & Hd2).
  repeat split; try congruence. auto.
Qed.

(** Rewriting one marker object in place, keeping what must be kept. *)
Lemma markers_kept_alter (f : PointMarker.t num → PointMarker.t num) r (st st' : State num) :
  (∀ m, PointMarker._point (f m) = PointMarker._point m
        ∧ PointMarker._draggable (f m) = PointMarker._draggable m
        ∧ PointMarker._marker (f m) = PointMarker._marker m
        ∧ (PointMarker.destroyed m = true → PointMarker.destroyed (f m) = true)) →
  next_marker st' = next_marker st → markers st' = alter f r (markers st) →
  markers_kept st st'.
Proof.
  intros Hf Hn Hm. split; [lia|]. intros r' _. rewrite Hm.
  destruct (decide (r = r')) as [->|Hne].
  - rewrite fn_lookup_alter. apply Hf.
  - by rewrite fn_lookup_alter_ne.
Qed.

Ltac kept_by_alter :=
  eapply markers_kept_alter; [|reflexivity|reflexivity]; intros ?; by repeat split.

Lemma markers_kept_same (st st' : State num) :
  next_marker st' = next_marker st → markers st' = markers st → markers_kept st st'.
Proof. intros Hn Hm. split; [lia|]. intros r _. by rewrite Hm. Qed.

Lemma addPointMarker_kept pk vw p (st : State num) :
  markers_kept st (_addPointMarker pk vw p st).2.
Proof.
  split; [cbn; lia|]. intros r Hr. cbn. by rewrite fn_lookup_insert_ne by lia.
Qed.

Lemma updatePoint_kept pk vw p (st : State num) : markers_kept st (_updatePoint pk vw p st).
Proof.
  unfold _updatePoint, _findOrAddPointMarker. destruct (reg st !! _) as [r|].
  - kept_by_alter.
  - eapply markers_kept_trans; [apply addPointMarker_kept|].
    kept_by_alter.
Qed.

Lemma removePoint_kept p (st : State num) : markers_kept st (_removePoint p st).
Proof.
  unfold _removePoint. destruct (reg st !! _) as [r|]; [|apply markers_kept_refl].
  kept_by_alter.
Qed.

Lemma emit_kept pk vw tp p e (st : State num) : markers_kept st (emit pk vw tp p e st).
Proof.
  unfold emit, _onPointsDrag. case_bool_decide; [|by apply markers_kept_same].
  eapply markers_kept_trans; [|apply updatePoint_kept]. by apply markers_kept_same.
Qed.

Lemma step_markers_kept pk vw (ev : Event num) (st st' : State num) :
  step isVisible pk vw ev st = Some st' → markers_kept st st'.
Proof.
  pose proof markers_kept_refl as Rr. pose proof markers_kept_trans as Rt.
  pose proof updatePoint_kept as Ru. pose proof removePoint_kept as Rm.
  pose proof addPointMarker_kept as Ra.
  intros Hst. destruct ev; cbn [step] in Hst; try (apply (inj Some) in Hst; subst st').
  - apply (R_onPointsUpdate isVisible _ Rr Rt Ru Rm Ra).
  - apply (R_onPointsAdd isVisible _ Rr Rt Ru Rm Ra).
  - apply (R_onPointsRemove _ Rr Rt Rm).
  - by apply markers_kept_same.
  - apply updatePoint_kept.
  - apply (R_updatePoints isVisible _ Rr Rt Ru Rm).
  - by apply markers_kept_same.
  - apply emit_kept.
  - apply emit_kept.
  - apply emit_kept.
  - apply emit_kept.
  - apply emit_kept.
  - unfold _onPointHandleDragStart.
    eapply markers_kept_trans; [|apply emit_kept]. by apply markers_kept_same.
  - unfold _onPointHandleDragMove in Hst. destruct (reg st !! _) as [r|]; [|done].
    injection Hst as <-. eapply markers_kept_trans; [|apply emit_kept].
    kept_by_alter.
  - unfold _onPointHandleDragEnd.
    eapply markers_kept_trans; [|apply emit_kept]. by apply markers_kept_same.
Qed.

(** X4.  Marker references are never reused and marker objects never
    change identity: over any sequence of notifications the allocation
    counter does not decrease, and every marker object already built keeps
    its point, its visual and its draggability, and stays destroyed once
    destroyed.  In particular [enableEditing] does not touch the markers
    that exist; it decides the draggability of the markers built after
    it. *)
Theorem markers_kept_run (evs : list (Peaks.t num * View.t num * Event num))
    (st st' : State num) :
  run isVisible evs st = Some st' →
  markers_kept st st'
  ∧ ∀ enable pk vw p,
      markers (enableEditing enable st') = markers st'
      ∧ PointMarker._draggable (_createPointMarker pk vw p (enableEditing enable st'))
        = enable && Point.editable (points st' p).
Proof.
  intros Hrun. split; [|done].
  induction evs as [|[[pk vw] ev] evs IH] in st, Hrun |- *.
  - injection Hrun as <-. apply markers_kept_refl.
  - cbn [run] in Hrun. destruct (step isVisible pk vw ev st) as [st1|] eqn:Hstep; [|done].
    eapply markers_kept_trans; [by eapply step_markers_kept|by apply IH].
Qed.

End MarkersKept.

(** ** Synchronisation from the handlers *)

Section SyncExtras.
Context {num : Type} {HN : JsNumber num}.
Variable isVisible : Point.t num → num → num → bool.
Variable peaks : Peaks.t num.
Variable view : View.t num.

Local Abbreviation reg := _pointMarkers.
Local Abbreviation sync := (updatePoints isVisible peaks view).

(** The ids of the store's points visible in a window. *)
Local Abbreviation visible_ids st s e :=
  (list_to_set
     (pid st <$> filter (λ p, isVisible (points st p) s e = true) (Peaks.points peaks))
   : gset string).


(** After the first phase, an entry of the registry is an old one or
    belongs to a marker built for one of the updated points. *)
Lemma update_all_entries ps (st : State num) k r :
  registry_wf st → reg (update_all peaks view ps st) !! k = Some r →
  reg st !! k = Some r
  ∨ (next_marker st ≤ r ∧ mpoint (update_all peaks view ps st) r ∈ ps).
Proof.
  intros Hwf. induction ps as [|q ps IH] using rev_ind in k, r |- *; [by left|].
  rewrite update_all_snoc. intros Hk.
  pose proof (update_all_wf peaks view ps st Hwf) as Hwf1.
  pose proof (update_all_next peaks view ps st) as Hnext.
  apply updatePoint_reg in Hk as [Hk | (Hnone & -> & ->)].
  - destruct (IH _ _ Hk) as [Hold | [Hge Hm]]; [by left|]. right. split; [done|].
    rewrite updatePoint_mpoint_old by by destruct (Hwf1 _ _ Hk).
    apply elem_of_app. by left.
  - right. split; [done|]. rewrite updatePoint_mpoint_new by done.
    apply elem_of_app. right. by apply list_elem_of_singleton.
Qed.

(** Every marker allocated by the first phase is registered. *)
Lemma update_all_new_registered ps (st : State num) r :
  next_marker st ≤ r → r < next_marker (update_all peaks view ps st) →
  ∃ k, reg (update_all peaks view ps st) !! k = Some r.
Proof.
  induction ps as [|q ps IH] using rev_ind; [cbn; lia|].
  rewrite update_all_snoc. intros Hge Hlt.
  set (st1 := update_all peaks view ps st) in *.
  destruct (reg st1 !! pid st1 q) as [r0|] eqn:Hq.
  - rewrite (updatePoint_hit _ _ _ _ _ Hq) in *. cbn in *. by apply IH.
  - destruct (updatePoint_miss peaks view q st1 Hq) as (Hreg & Hn & _).
    rewrite Hn in Hlt. destruct (decide (r = next_marker st1)) as [->|Hne].
    + exists (pid st1 q). by rewrite Hreg, lookup_insert_eq.
    + destruct IH as [k Hk]; [done|lia|]. exists k. by apply updatePoint_reg_mono.
Qed.

(** A pass whose [find] returns visible points only destroys none of the
    markers it builds: they all end registered and alive. *)
Lemma updatePoints_new_markers s e (st : State num) r :
  layer_inv st →
  Forall (λ p, isVisible (points st p) s e = true) (Peaks.find peaks s e) →
  next_marker st ≤ r → r < next_marker (sync s e st) →
  PointMarker.destroyed (markers (sync s e st) r) = false
  ∧ ∃ k, reg (sync s e st) !! k = Some r.
Proof.
  intros Hinv Hvis Hge Hlt.
  assert (layer_inv (sync s e st)) as (_ & Hlive & _).
  { pose (R := λ a b : State num, layer_inv a → layer_inv b).
    apply (R_updatePoints isVisible R); unfold R; auto.
    - intros; by apply updatePoint_inv.
    - intros; by apply removePoint_inv. }
  destruct Hinv as (Hwf & _ & _).
  assert (∃ k, reg (sync s e st) !! k = Some r) as [k Hk]; [|by destruct (Hlive _ _ Hk); eauto].
  rewrite updatePoints_unfold in *.
  set (st1 := update_all peaks view (Peaks.find peaks s e) st) in *.
  assert (registry_wf st1) as Hwf1 by by apply update_all_wf.
  destruct (removeInvisiblePoints_spec isVisible s e st1 Hwf1) as (_ & Hn & _ & _ & Hr).
  rewrite Hn in Hlt.
  destruct (update_all_new_registered _ st r Hge Hlt) as [k Hk]. fold st1 in Hk.
  exists k. apply Hr. split; [done|].
  destruct (update_all_entries _ st k r Hwf Hk) as [Hold | [_ Hm]].
  - destruct (Hwf _ _ Hold). lia.
  - fold st1 in Hm. unfold marker_visible. unfold st1 at 1. rewrite update_all_points.
    rewrite list.Forall_forall in Hvis. by apply Hvis.
Qed.


(** X6.  A synchronisation pass never builds a marker only to destroy it:
    when [find] returns visible points only, every marker allocated during
    [updatePoints] is alive and registered when it returns. *)
Theorem updatePoints_no_flicker (s e : num) (st : State num) :
  layer_inv st →
  Forall (λ p, isVisible (points st p) s e = true) (Peaks.find peaks s e) →
  ∀ r, next_marker st ≤ r → r < next_marker (sync s e st) →
    PointMarker.destroyed (markers (sync s e st) r) = false
    ∧ ∃ k, reg (sync s e st) !! k = Some r.
Proof. intros Hinv Hvis r. by apply updatePoints_new_markers. Qed.




End SyncExtras.

(** ** Purging and orphans *)

Section PurgeExtras.
Context {num : Type} {HN : JsNumber num}.
Variable isVisible : Point.t num → num → num → bool.

Local Abbreviation reg := _pointMarkers.
Local Abbreviation loop := (_removeInvisiblePoints_loop isVisible).

(** Each removal is counted once. *)
Lemma removeInvisiblePoints_loop_count keys s e count (st : State num) :
  registry_wf st →
  (loop keys s e count st).1 + size (reg (loop keys s e count st).2)
  = count + size (reg st).
Proof.
  induction keys as [|k keys IH] in count, st |- *; intros Hwf; [done|].
  cbn [_removeInvisiblePoints_loop].
  destruct (reg st !! k) as [r|] eqn:Hk; [|by apply IH].
  destruct (negb _); [|by apply IH].
  destruct (removePoint_of_marker st k r Hwf Hk) as (Hp1 & Hn1 & Hr1 & Hm1 & _).
  fold (mpoint st r). set (st1 := _removePoint (mpoint st r) st) in *.
  rewrite IH by by eapply registry_wf_delete.
  rewrite Hr1, map_size_delete, Hk.
  assert (0 < size (reg st)); [|lia].
  destruct (decide (size (reg st) = 0)) as [Hz|]; [|lia].
  apply map_size_empty_iff in Hz. rewrite Hz, lookup_empty in Hk. done.
Qed.

(** X8.  [_removeInvisiblePoints] keeps exactly the entries whose marker's
    point is visible and returns the number of entries it removed; the
    registry it leaves does not depend on the order in which the keys are
    enumerated. *)
Theorem removeInvisiblePoints_count (s e : num) (st : State num) :
  registry_wf st →
  let res := _removeInvisiblePoints isVisible s e st in
  reg res.2 = filter (λ kr, marker_visible isVisible st s e kr.2 = true) (reg st)
  ∧ res.1 + size (reg res.2) = size (reg st)
  ∧ ∀ keys count, (∀ k, is_Some (reg st !! k) → k ∈ keys) →
      reg (loop keys s e count st).2 = reg res.2.
Proof.
  intros Hwf res.
  destruct (removeInvisiblePoints_spec isVisible s e st Hwf) as (_ & _ & _ & _ & Hr).
  fold res in Hr.
  assert (reg res.2 = filter (λ kr, marker_visible isVisible st s e kr.2 = true) (reg st))
    as Hfilter.
  { apply map_eq. intros k. apply option_eq. intros r.
    rewrite Hr, map_lookup_filter_Some. done. }
  split; [done|]. split.
  - unfold res, _removeInvisiblePoints. by rewrite removeInvisiblePoints_loop_count.
  - intros keys count Hkeys. rewrite Hfilter.
    destruct (removeInvisiblePoints_loop_spec isVisible keys s e count st Hwf)
      as (_ & _ & _ & _ & Hl).
    apply map_eq. intros k. apply option_eq. intros r.
    rewrite Hl, map_lookup_filter_Some. cbn. split.
    + intros [Hk Hv]. split; [done|]. apply Hv, Hkeys. by exists r.
    + intros [Hk Hv]. by split.
Qed.

(** *** Orphans *)

Lemma updatePoint_orphan pk vw p r (st : State num) :
  orphan r st → orphan r (_updatePoint pk vw p st).
Proof.
  intros (Hlt & Hun & Ha & Hin).
  destruct (reg st !! pid st p) as [r0|] eqn:Hp.
  - rewrite (updatePoint_hit _ _ _ _ _ Hp). split; [done|]. split; [done|]. cbn.
    rewrite fn_lookup_alter_ne; [done|]. intros ->. by apply (Hun (pid st p)).
  - destruct (updatePoint_miss pk vw p st Hp) as (Hreg & Hn & Hl & _ & Hm).
    split; [lia|]. split; [|split].
    + intros k. rewrite Hreg, lookup_insert. case_decide; [|apply Hun].
      intros [= Heq]. lia.
    + rewrite Hm by lia. done.
    + rewrite Hl. apply elem_of_app. by left.
Qed.

Lemma removePoint_orphan p r (st : State num) : orphan r st → orphan r (_removePoint p st).
Proof.
  intros (Hlt & Hun & Ha & Hin).
  destruct (reg st !! pid st p) as [r0|] eqn:Hp; [|by rewrite removePoint_miss].
  rewrite (removePoint_hit _ _ _ Hp).
  assert (r0 ≠ r) as Hne by (intros ->; by apply (Hun (pid st p))).
  split; [done|]. split; [|split]; cbn.
  - intros k [_ Hk]%lookup_delete_Some. by apply (Hun k).
  - by rewrite fn_lookup_alter_ne.
  - apply list_elem_of_filter. split; [congruence|done].
Qed.

Lemma addPointMarker_orphan pk vw p r (st : State num) :
  orphan r st → orphan r (_addPointMarker pk vw p st).2.
Proof.
  intros (Hlt & Hun & Ha & Hin). split; [cbn; lia|]. split; [|split]; cbn.
  - intros k. rewrite lookup_insert. case_decide; [|apply Hun]. intros [= Heq]. lia.
  - by rewrite fn_lookup_insert_ne by lia.
  - apply elem_of_app. by left.
Qed.

Lemma emit_orphan pk vw tp p e r (st : State num) :
  orphan r st → orphan r (emit pk vw tp p e st).
Proof.
  intros Ho. unfold emit, _onPointsDrag. case_bool_decide; [|done].
  by apply updatePoint_orphan.
Qed.

(** Nothing but [points.remove_all] ever touches an orphan. *)
Lemma step_orphan pk vw (ev : Event num) r (st st' : State num) :
  is_remove_all ev = false → step isVisible pk vw ev st = Some st' →
  orphan r st → orphan r st'.
Proof.
  pose (R := λ a b : State num, orphan r a → orphan r b).
  assert (∀ st, R st st) as Rr by (by intros ? ?).
  assert (∀ a b c, R a b → R b c → R a c) as Rt by (intros a b c Hab Hbc Ha; auto).
  assert (∀ pk vw p st, R st (_updatePoint pk vw p st)) as Ru
    by (intros; intros ?; by apply updatePoint_orphan).
  assert (∀ p st, R st (_removePoint p st)) as Rm
    by (intros; intros ?; by apply removePoint_orphan).
  assert (∀ pk vw p st, R st (_addPointMarker pk vw p st).2) as Ra
    by (intros; intros ?; by apply addPointMarker_orphan).
  intros Hev Hst Ho.
  destruct ev; try discriminate Hev; cbn [step] in Hst;
    try (apply (inj Some) in Hst; subst st').
  - by apply (R_onPointsUpdate isVisible R Rr Rt Ru Rm Ra).
  - by apply (R_onPointsAdd isVisible R Rr Rt Ru Rm Ra).
  - by apply (R_onPointsRemove R Rr Rt Rm).
  - by apply updatePoint_orphan.
  - by apply (R_updatePoints isVisible R Rr Rt Ru Rm).
  - done.
  - by apply emit_orphan.
  - by apply emit_orphan.
  - by apply emit_orphan.
  - by apply emit_orphan.
  - by apply emit_orphan.
  - unfold _onPointHandleDragStart. by apply emit_orphan.
  - unfold _onPointHandleDragMove in Hst. destruct (reg st !! _) as [r0|] eqn:Hp; [|done].
    injection Hst as <-. apply emit_orphan.
    destruct Ho as (Hlt & Hun & Ha & Hin). split; [done|]. split; [done|]. cbn.
    rewrite fn_lookup_alter_ne; [done|]. intros ->. by eapply Hun.
  - unfold _onPointHandleDragEnd. by apply emit_orphan.
Qed.

(** X9.  [points.add] does not look for an existing marker.  For a point
    that is visible in the view's window and already has a marker, it
    registers a newly built marker under the point's id and leaves the old
    one orphaned: alive, still a child of the layer, reachable from no key.
    No later notification destroys or detaches the orphan, save
    [points.remove_all], which detaches it. *)
Theorem onPointsAdd_orphans_existing_marker pk vw (p : PointRef) (r : MarkerRef)
    (evs : list (Peaks.t num * View.t num * Event num)) (st st' : State num) :
  layer_inv st →
  _pointMarkers st !! Point.id (points st p) = Some r →
  isVisible (points st p) (View.getStartTime vw) (View.getEndTime vw) = true →
  Forall (λ pve, is_remove_all pve.2 = false) evs →
  run isVisible evs (_onPointsAdd isVisible pk vw [p] st) = Some st' →
  _pointMarkers (_onPointsAdd isVisible pk vw [p] st) !! Point.id (points st p)
  = Some (next_marker st)
  ∧ orphan r (_onPointsAdd isVisible pk vw [p] st)
  ∧ orphan r st'.
Proof.
  intros (Hwf & Hlive & Hlay) Hr Hvis Hevs Hrun.
  fold (pid st p) in Hr. destruct (Hwf _ _ Hr) as [Hlt _]. destruct (Hlive _ _ Hr) as [Ha Hin].
  unfold _onPointsAdd in *. cbn [foldl] in *. rewrite Hvis in *.
  set (st1 := (_addPointMarker pk vw p st).2) in *.
  set (s := View.getStartTime vw) in *. set (e := View.getEndTime vw) in *.
  assert (orphan r st1) as Ho1.
  { split; [cbn; lia|]. split; [|split]; cbn.
    - intros k. fold (pid st p). rewrite lookup_insert. case_decide as Hk.
      + intros [= Heq]. lia.
      + intros Hk'. apply Hk. by eapply registry_wf_inj.
    - by rewrite fn_lookup_insert_ne by lia.
    - apply elem_of_app. by left. }
  assert (orphan r (updatePoints isVisible pk vw s e st1)) as Ho2.
  { pose (R := λ a b : State num, orphan r a → orphan r b).
    apply (R_updatePoints isVisible R); unfold R; auto.
    - intros; by apply updatePoint_orphan.
    - intros; by apply removePoint_orphan. }
  split; [|split; [done|]].
  - assert (registry_wf st1) as Hwf1 by by apply addPointMarker_wf.
    rewrite updatePoints_unfold.
    set (st2 := update_all pk vw (Peaks.find pk s e) st1).
    assert (registry_wf st2) as Hwf2 by by apply update_all_wf.
    destruct (removeInvisiblePoints_spec isVisible s e st2 Hwf2) as (_ & _ & _ & _ & Hspec).
    apply Hspec.
    assert (reg st1 !! pid st p = Some (next_marker st)) as Hk1
      by (cbn; fold (pid st p); by rewrite lookup_insert_eq).
    split; [by apply update_all_reg_mono|].
    unfold marker_visible, st2. rewrite update_all_points, update_all_mpoint_old.
    + unfold mpoint. cbn. by rewrite fn_lookup_insert.
    + cbn. lia.
  - revert Hrun Ho2. generalize (updatePoints isVisible pk vw s e st1).
    induction Hevs as [|[[pk' vw'] ev] evs Hev _ IH]; intros st0.
    + by intros [= <-].
    + cbn [run]. destruct (step isVisible pk' vw' ev st0) as [st0'|] eqn:Hstep; [|done].
      intros Hrun Ho. apply (IH _ Hrun). by eapply step_orphan.
Qed.

(** X10.  [points.add] of points none of which is visible in the view's
    window, the empty notification included, builds nothing: it is a bare
    synchronisation pass over that window. *)
Theorem onPointsAdd_invisible pk vw (pts : list PointRef) (st : State num) :
  Forall (λ p, isVisible (points st p) (View.getStartTime vw) (View.getEndTime vw) = false)
    pts →
  _onPointsAdd isVisible pk vw pts st
  = updatePoints isVisible pk vw (View.getStartTime vw) (View.getEndTime vw) st.
Proof.
  intros Hpts. unfold _onPointsAdd. f_equal.
  induction Hpts as [|q pts Hq _ IH]; [done|]. cbn [foldl]. by rewrite Hq.
Qed.

End PurgeExtras.

(** ** Registry primitives *)

Section Primitives.
Context {num : Type} {HN : JsNumber num}.
Variable peaks : Peaks.t num.
Variable view : View.t num.

Local Abbreviation reg := _pointMarkers.

Lemma filter_fresh_snoc (l : list MarkerRef) n :
  Forall (λ c, c < n) l → filter (λ c, c ≠ n) (l ++ [n]) = l.
Proof.
  intros Hl. induction Hl as [|c l Hc _ IH].
  - cbn [app]. rewrite list.filter_cons_False; [done|]. by intros ?.
  - cbn [app]. rewrite list.filter_cons_True by lia. f_equal. exact IH.
Qed.

(** X11.  Removing a point twice is removing it once.  Building a marker
    for a point that has none and removing the point again gives back the
    registry and the layer's children as they were; the marker object
    built in between is left destroyed and every older marker object is
    untouched. *)
Theorem removePoint_round_trip (p : PointRef) (st : State num) :
  _removePoint p (_removePoint p st) = _removePoint p st
  ∧ (layer_allocated st → _pointMarkers st !! Point.id (points st p) = None →
     let st' := _removePoint p (_addPointMarker peaks view p st).2 in
     _pointMarkers st' = _pointMarkers st
     ∧ _layer st' = _layer st
     ∧ points st' = points st
     ∧ PointMarker.destroyed (markers st' (next_marker st)) = true
     ∧ ∀ r, r < next_marker st → markers st' r = markers st r).
Proof.
  split.
  - destruct (reg st !! pid st p) as [r|] eqn:Hp.
    + rewrite (removePoint_hit _ _ _ Hp). apply removePoint_miss.
      unfold pid. cbn. apply lookup_delete_eq.
    + by rewrite !(removePoint_miss _ _ Hp).
  - intros Hlay Hnone. fold (pid st p) in Hnone. cbn zeta.
    set (st1 := (_addPointMarker peaks view p st).2).
    assert (reg st1 !! pid st1 p = Some (next_marker st)) as Hk
      by (unfold pid; cbn; by rewrite lookup_insert_eq).
    rewrite (removePoint_hit _ _ _ Hk). cbn. fold (pid st p).
    split; [by rewrite delete_insert_eq, delete_id|].
    split; [by apply filter_fresh_snoc|]. split; [done|].
    split; [by rewrite fn_lookup_alter|].
    intros r Hr. rewrite fn_lookup_alter_ne by lia. by rewrite fn_lookup_insert_ne by lia.
Qed.


(** X13.  [fitToView] refits every registered marker exactly once and no
    other marker object: never a destroyed one, never a detached one and
    never an orphan. *)
Theorem fitToView_registered (st : State num) :
  layer_inv st →
  NoDup (fitToView st)
  ∧ (∀ r, r ∈ fitToView st ↔ ∃ k, _pointMarkers st !! k = Some r)
  ∧ Forall (λ r, PointMarker.destroyed (markers st r) = false ∧ r ∈ _layer st)
      (fitToView st)
  ∧ ∀ r, orphan r st → r ∉ fitToView st.
Proof.
  intros (Hwf & Hlive & _).
  assert (∀ r, r ∈ fitToView st ↔ ∃ k, reg st !! k = Some r) as Hmem.
  { intros r. unfold fitToView. rewrite list_elem_of_fmap. split.
    - intros ([k r'] & -> & Hin). exists k. by apply elem_of_map_to_list.
    - intros [k Hk]. exists (k, r). split; [done|]. by apply elem_of_map_to_list. }
  split; [|split; [done|split]].
  - unfold fitToView. apply NoDup_fmap_2_strong; [|apply NoDup_map_to_list].
    intros [k1 r1] [k2 r2] H1%elem_of_map_to_list H2%elem_of_map_to_list Heq.
    cbn in Heq. subst r2. f_equal. by eapply registry_wf_inj.
  - apply list.Forall_forall. intros r [k Hk]%Hmem. exact (Hlive _ _ Hk).
  - intros r (_ & Hun & _) [k Hk]%Hmem. by apply (Hun k).
Qed.

End Primitives.

(** ** The drag-bound function and the drag-move callback *)

Section DragExtras.
Context {num : Type} {HN : JsNumber num}.
Variable peaks : Peaks.t num.
Variable view : View.t num.

Local Abbreviation reg := _pointMarkers.

(** X14.  [_pointHandleDragBoundFunc] throws exactly when no drag session
    is active.  Otherwise, for a view whose width is not below zero (and a
    [<] that is irreflexive there), it returns a position whose [x] is
    neither below zero nor beyond the view's width, whose [y] is the
    dragged marker's own whatever the pointer's, and which it maps to
    itself. *)
Theorem pointHandleDragBoundFunc_bounds (pos : Pos num) (st : State num) :
  let w := View.getWidth view in
  num_ltb num_zero num_zero = false → num_ltb w w = false → num_ltb w num_zero = false →
  (_pointHandleDragBoundFunc view pos st = None ↔ _dragPointMarker st = None)
  ∧ ∀ r, _dragPointMarker st = Some r →
      ∃ b, _pointHandleDragBoundFunc view pos st = Some b
           ∧ num_ltb (pos_x b) num_zero = false
           ∧ num_ltb w (pos_x b) = false
           ∧ pos_y b = PointMarker.y (markers st r)
           ∧ _pointHandleDragBoundFunc view b st = Some b.
Proof.
  intros w H00 Hww Hw0. unfold _pointHandleDragBoundFunc. split.
  - by destruct (_dragPointMarker st).
  - intros r ->. eexists. split; [reflexivity|]. cbn. fold w.
    assert (num_ltb (clamp (pos_x pos) num_zero w) num_zero = false
            ∧ num_ltb w (clamp (pos_x pos) num_zero w) = false) as [Hlo Hhi].
    { unfold clamp. destruct (num_ltb (pos_x pos) num_zero) eqn:H1; [done|].
      by destruct (num_ltb w (pos_x pos)) eqn:H2. }
    split; [done|]. split; [done|]. split; [done|].
    by rewrite (clamp_inside _ _ _ Hlo Hhi).
Qed.

(** X15.  The drag-move callback throws exactly when the point has no
    registered marker.  When it returns, the layer's own listener of
    [points.dragmove] has already moved the marker to where the view
    projects the time just written, the registry and the allocation are
    unchanged, and [points.dragmove] has been emitted once. *)
Theorem onPointHandleDragMove_outcome (e : KonvaEvent) (p : PointRef) (st : State num) :
  (_onPointHandleDragMove peaks view e p st = None
   ↔ _pointMarkers st !! Point.id (points st p) = None)
  ∧ ∀ r, _pointMarkers st !! Point.id (points st p) = Some r →
      ∃ st', _onPointHandleDragMove peaks view e p st = Some st'
             ∧ PointMarker.getX (markers st' r)
               = num_sub (View.timeToPixels view (Point.time (points st' p)))
                   (View.getFrameOffset view)
             ∧ _pointMarkers st' = _pointMarkers st
             ∧ next_marker st' = next_marker st
             ∧ _layer st' = _layer st
             ∧ emitted st' = emitted st ++ [mkEmitted "points.dragmove" p (evt e)].
Proof.
  split.
  - unfold _onPointHandleDragMove. by destruct (reg st !! _).
  - intros r Hr. unfold _onPointHandleDragMove. rewrite Hr.
    eexists. split; [reflexivity|].
    match goal with |- context [emit _ _ _ _ _ ?s] => set (st2 := s) end.
    assert (reg st2 !! pid st2 p = Some r) as Hr2.
    { unfold pid, st2. cbn. by rewrite fn_lookup_alter. }
    rewrite (emit_drag_topic_hit peaks view "points.dragmove" p (evt e) st2 r);
      [|unfold drag_topics; set_solver|done].
    cbn. by rewrite fn_lookup_alter.
Qed.

End DragExtras.

(** ** After a reset *)

Section AfterReset.
Context {num : Type} {HN : JsNumber num}.
Variable isVisible : Point.t num → num → num → bool.
Variable peaks : Peaks.t num.
Variable view : View.t num.

Local Abbreviation reg := _pointMarkers.
Local Abbreviation sync := (updatePoints isVisible peaks view).




End AfterReset.


(** ** The further properties at work on the concrete layer *)

Ltac demo_layer_inv :=
  split; [|split];
  [unfold registry_wf|unfold registry_live|unfold layer_allocated];
  decide_by_computation.

Lemma layer_inv_reachable_witness : layer_inv Demo.st1.
Proof.
  refine (proj1 (layer_inv_reachable Demo.isVisible true Demo.heap Demo.blank
                   [(Demo.peaks, Demo.view 0 6, UpdatePoints 0%Z 6%Z)] Demo.st1 _)).
  reflexivity.
Defined.

Lemma points_written_only_by_drag_move_witness :
  ∃ st', run Demo.isVisible
           [(Demo.peaks, Demo.view 0 6, HandleDragMove (mkKonvaEvent 0) 0);
            (Demo.peaks, Demo.view 4 10, UpdatePoints 4%Z 10%Z)] Demo.st1 = Some st'
         ∧ points st' 1 = points Demo.st1 1.
Proof.
  eexists. split; [reflexivity|].
  refine (proj2 (proj2 (points_written_only_by_drag_move Demo.isVisible
                          [(Demo.peaks, Demo.view 0 6, HandleDragMove (mkKonvaEvent 0) 0);
                           (Demo.peaks, Demo.view 4 10, UpdatePoints 4%Z 10%Z)]
                          Demo.st1 _ _)) 1 _).
  - reflexivity.
  - repeat constructor; intros e; discriminate.
Defined.

Lemma callbacks_emit_once_witness :
  ∃ st', step Demo.isVisible Demo.peaks (Demo.view 0 6)
           (HandleContextMenu (mkKonvaEvent 7) 1) Demo.st1 = Some st'
         ∧ emitted st' = [mkEmitted "points.contextmenu" 1 7].
Proof.
  eexists. split; [reflexivity|].
  refine (proj1 (callbacks_emit_once Demo.isVisible Demo.peaks (Demo.view 0 6)
                   (HandleContextMenu (mkKonvaEvent 7) 1) Demo.st1 _ _)).
  reflexivity.
Defined.

Lemma markers_kept_run_witness :
  ∃ st', run Demo.isVisible
           [(Demo.peaks, Demo.view 0 6, EnableEditing false);
            (Demo.peaks, Demo.view 4 10, UpdatePoints 4%Z 10%Z)] Demo.st1 = Some st'
         ∧ markers_kept Demo.st1 st'.
Proof.
  eexists. split; [reflexivity|].
  refine (proj1 (markers_kept_run Demo.isVisible
                   [(Demo.peaks, Demo.view 0 6, EnableEditing false);
                    (Demo.peaks, Demo.view 4 10, UpdatePoints 4%Z 10%Z)]
                   Demo.st1 _ _)).
  reflexivity.
Defined.


Lemma updatePoints_no_flicker_witness :
  let st' := updatePoints Demo.isVisible Demo.peaks (Demo.view 4 10) 4%Z 10%Z Demo.st1 in
  PointMarker.destroyed (markers st' 2) = false ∧ ∃ k, _pointMarkers st' !! k = Some 2.
Proof.
  refine (updatePoints_no_flicker Demo.isVisible Demo.peaks (Demo.view 4 10) 4%Z 10%Z
            Demo.st1 _ _ 2 _ _).
  - demo_layer_inv.
  - decide_by_computation.
  - vm_compute. lia.
  - vm_compute. lia.
Defined.


Lemma removeInvisiblePoints_count_witness :
  let res := _removeInvisiblePoints Demo.isVisible 4%Z 10%Z Demo.st1 in
  res.1 + size (_pointMarkers res.2) = size (_pointMarkers Demo.st1).
Proof.
  refine (proj1 (proj2 (removeInvisiblePoints_count Demo.isVisible 4%Z 10%Z Demo.st1 _))).
  unfold registry_wf. decide_by_computation.
Defined.

Lemma onPointsAdd_orphans_existing_marker_witness :
  ∃ st', run Demo.isVisible [(Demo.peaks, Demo.view 0 6, PointsRemove [0])]
           (_onPointsAdd Demo.isVisible Demo.peaks (Demo.view 0 6) [0] Demo.st1) = Some st'
         ∧ orphan 0 st'.
Proof.
  eexists. split; [reflexivity|].
  refine (proj2 (proj2 (onPointsAdd_orphans_existing_marker Demo.isVisible Demo.peaks
                          (Demo.view 0 6) 0 0
                          [(Demo.peaks, Demo.view 0 6, PointsRemove [0])]
                          Demo.st1 _ _ _ _ _ _))).
  - demo_layer_inv.
  - reflexivity.
  - reflexivity.
  - repeat constructor.
  - reflexivity.
Defined.

Lemma onPointsAdd_invisible_witness :
  _onPointsAdd Demo.isVisible Demo.peaks (Demo.view 0 6) [2] Demo.st1
  = updatePoints Demo.isVisible Demo.peaks (Demo.view 0 6) 0%Z 6%Z Demo.st1.
Proof.
  apply (onPointsAdd_invisible Demo.isVisible Demo.peaks (Demo.view 0 6) [2] Demo.st1).
  repeat constructor.
Defined.

Lemma removePoint_round_trip_witness :
  let st' := _removePoint 2 (_addPointMarker Demo.peaks (Demo.view 0 6) 2 Demo.st1).2 in
  _pointMarkers st' = _pointMarkers Demo.st1 ∧ _layer st' = _layer Demo.st1.
Proof.
  destruct (proj2 (removePoint_round_trip Demo.peaks (Demo.view 0 6) 2 Demo.st1))
    as (Hreg & Hlay & _).
  - unfold layer_allocated. decide_by_computation.
  - reflexivity.
  - by split.
Defined.


Lemma fitToView_registered_witness :
  NoDup (fitToView Demo.st1) ∧ (∀ r, r ∈ fitToView Demo.st1 ↔ ∃ k, _pointMarkers Demo.st1 !! k = Some r).
Proof.
  destruct (fitToView_registered Demo.st1) as (Hnd & Hmem & _); [demo_layer_inv|].
  by split.
Defined.

Lemma pointHandleDragBoundFunc_bounds_witness :
  ∃ b, _pointHandleDragBoundFunc (Demo.view 0 6) (mkPos (-5)%Z 3%Z)
         (set_dragPointMarker (Some 0) Demo.st1) = Some b
       ∧ num_ltb (pos_x b) num_zero = false
       ∧ num_ltb (View.getWidth (Demo.view 0 6)) (pos_x b) = false
       ∧ pos_y b = PointMarker.y (markers (set_dragPointMarker (Some 0) Demo.st1) 0)
       ∧ _pointHandleDragBoundFunc (Demo.view 0 6) b
           (set_dragPointMarker (Some 0) Demo.st1) = Some b.
Proof.
  refine (proj2 (pointHandleDragBoundFunc_bounds (Demo.view 0 6) (mkPos (-5)%Z 3%Z)
                   (set_dragPointMarker (Some 0) Demo.st1) _ _ _) 0 _);
    reflexivity.
Defined.

Lemma onPointHandleDragMove_outcome_witness :
  ∃ st', _onPointHandleDragMove Demo.peaks (Demo.view 0 6) (mkKonvaEvent 0) 1 Demo.st1
         = Some st'
         ∧ PointMarker.getX (markers st' 1)
           = num_sub (View.timeToPixels (Demo.view 0 6) (Point.time (points st' 1)))
               (View.getFrameOffset (Demo.view 0 6))
         ∧ _pointMarkers st' = _pointMarkers Demo.st1
         ∧ next_marker st' = next_marker Demo.st1
         ∧ _layer st' = _layer Demo.st1
         ∧ emitted st' = emitted Demo.st1 ++ [mkEmitted "points.dragmove" 1 (evt (mkKonvaEvent 0))].
Proof.
  refine (proj2 (onPointHandleDragMove_outcome Demo.peaks (Demo.view 0 6)
                   (mkKonvaEvent 0) 1 Demo.st1) 1 _).
  reflexivity.
Defined.
